(** * wwebjs-api: configuration, startup, webhook dispatch and channel handlers

    A shallow embedding of [src/config.js], [server.js], [src/utils.js] and
    the channel controller, with the properties the specification states
    about them.  JavaScript values are a small inductive type, [process.env]
    is a finite map from names to strings, effects are explicit traces.
    A string is the sequence of its UTF-16 code units, one [ascii] each, so
    that lengths and indices are those of JavaScript for strings whose code
    units are all below 256. *)

From Stdlib Require Import ZArith List String Ascii Lia Bool DecimalString Sorted.
From stdpp Require Import base option list strings gmap.
From Equations Require Import Equations.
Import ListNotations.

Local Open Scope string_scope.
Local Open Scope Z_scope.
Local Open Scope list_scope.

Set Warnings "-register-all".

(** ** JavaScript values *)

Inductive jsval : Type :=
| JUndefined
| JNull
| JBool (b : bool)
| JNum (n : Z)
| JStr (s : string)
| JObj (props : list (string * jsval)).

(** [ToBoolean]: undefined, null, false, 0 and the empty string are falsy. *)
Definition truthy (v : jsval) : bool :=
  match v with
  | JUndefined | JNull => false
  | JBool b => b
  | JNum n => negb (Z.eqb n 0)
  | JStr s => negb (String.eqb s "")
  | JObj _ => true
  end.

(** [a || b] *)
Definition js_or (a b : jsval) : jsval := if truthy a then a else b.

(** Own-property lookup in a property list (first binding wins, as the
    lists below never hold a key twice). *)
Fixpoint assoc_get (k : string) (props : list (string * jsval)) : jsval :=
  match props with
  | [] => JUndefined
  | (k', v) :: rest => if String.eqb k k' then v else assoc_get k rest
  end.

(** [o[k]] on a value that is not undefined or null: plain data objects
    answer with their own property, primitives have none. *)
Definition own_property (o : jsval) (k : string) : jsval :=
  match o with
  | JObj props => assoc_get k props
  | _ => JUndefined
  end.

(** [obj[k] = v]: overwrite in place or append. *)
Fixpoint obj_set (k : string) (v : jsval) (props : list (string * jsval))
  : list (string * jsval) :=
  match props with
  | [] => [(k, v)]
  | (k', v') :: rest =>
      if String.eqb k k' then (k', v) :: rest else (k', v') :: obj_set k v rest
  end.

(** The own enumerable properties of a string: its characters under their
    indices, from index [i] on. *)
Fixpoint string_entries (i : nat) (s : string) : list (string * jsval) :=
  match s with
  | EmptyString => []
  | String c rest =>
      (NilZero.string_of_uint (Nat.to_uint i), JStr (String c EmptyString))
      :: string_entries (S i) rest
  end.

(** [{ ...base, ...extra }]: the own properties of [extra] are set one by
    one; a string brings its characters under their indices; undefined,
    null, a boolean or a number add nothing.  Keys stay in the order in
    which they were set. *)
Definition spread (base : list (string * jsval)) (extra : jsval)
  : list (string * jsval) :=
  match extra with
  | JObj props => fold_left (fun acc kv => obj_set (fst kv) (snd kv) acc) props base
  | JStr s => fold_left (fun acc kv => obj_set (fst kv) (snd kv) acc) (string_entries 0 s) base
  | _ => base
  end.

(** Template-literal rendering of the values that reach one. *)
Definition js_to_string (v : jsval) : string :=
  match v with
  | JUndefined => "undefined"
  | JNull => "null"
  | JBool true => "true"
  | JBool false => "false"
  | JNum n => NilZero.string_of_int (Z.to_int n)
  | JStr s => s
  | JObj _ => "[object Object]"
  end.

(** ** Strings *)

(** [s.split(sep)] for a one-character separator. *)
Fixpoint split_on (sep : ascii) (s : string) : list string :=
  match s with
  | EmptyString => [EmptyString]
  | String c rest =>
      if Ascii.eqb c sep then EmptyString :: split_on sep rest
      else match split_on sep rest with
           | [] => [String c EmptyString]
           | w :: ws => String c w :: ws
           end
  end.

(** [parts.join(sep)] *)
Fixpoint join_with (sep : ascii) (parts : list string) : string :=
  match parts with
  | [] => EmptyString
  | [w] => w
  | w :: ws => String.append w (String sep (join_with sep ws))
  end.

Fixpoint has_char (c : ascii) (s : string) : bool :=
  match s with
  | EmptyString => false
  | String c' rest => Ascii.eqb c' c || has_char c rest
  end.

Definition lower_ascii (c : ascii) : ascii :=
  let n := N_of_ascii c in
  if ((65 <=? n) && (n <=? 90))%N then ascii_of_N (n + 32) else c.

(** [s.toLowerCase()] on the ASCII range, which is all the comparison with
    ['true'] can observe. *)
Fixpoint toLowerCase (s : string) : string :=
  match s with
  | EmptyString => EmptyString
  | String c rest => String (lower_ascii c) (toLowerCase rest)
  end.

(** ** src/config.js *)

Module Config.

(** [process.env.NAME]: absent variables read as undefined. *)
Definition getenv (env : gmap string string) (name : string) : jsval :=
  match env !! name with
  | Some s => JStr s
  | None => JUndefined
  end.

(** [(process.env.X || '').toLowerCase() === 'true'] *)
Definition flag_off (v : jsval) : bool :=
  String.eqb (toLowerCase (js_to_string (js_or v (JStr "")))) "true".

(** [process.env.X ? (process.env.X).toLowerCase() === 'true' : dflt] *)
Definition flag_dflt (dflt : bool) (v : jsval) : bool :=
  if truthy v then String.eqb (toLowerCase (js_to_string v)) "true" else dflt.

Record config : Type := {
  servicePort : jsval;
  sessionFolderPath : jsval;
  enableLocalCallbackExample : bool;
  globalApiKey : jsval;
  baseWebhookURL : jsval;
  setMessagesAsSeen : bool;
  disabledCallbacks : list string;
  enableSwaggerEndpoint : bool;
  webVersion : jsval;
  webVersionCacheType : jsval;
  recoverSessions : bool;
  chromeBin : jsval;
  headless : bool;
  releaseBrowserLock : bool;
  logLevel : jsval;
  enableWebHook : bool;
  enableWebSocket : bool;
  autoStartSessions : bool;
  basePath : jsval;
  trustProxy : bool
}.

(** [process.env.DISABLED_CALLBACKS ? process.env.DISABLED_CALLBACKS.split('|') : []] *)
Definition parse_disabledCallbacks (v : jsval) : list string :=
  match v with
  | JStr s => if truthy v then split_on "|" s else []
  | _ => []
  end.

(** The module body, evaluated once against the environment.  The three
    [parseInt] settings (attachment size, rate limits) are not used by
    the code modelled here and are left out of the record. *)
Definition load (env : gmap string string) : config := {|
  servicePort := js_or (getenv env "PORT") (JNum 3000);
  sessionFolderPath := js_or (getenv env "SESSIONS_PATH") (JStr "./sessions");
  enableLocalCallbackExample := flag_off (getenv env "ENABLE_LOCAL_CALLBACK_EXAMPLE");
  globalApiKey := getenv env "API_KEY";
  baseWebhookURL := getenv env "BASE_WEBHOOK_URL";
  setMessagesAsSeen := flag_off (getenv env "SET_MESSAGES_AS_SEEN");
  disabledCallbacks := parse_disabledCallbacks (getenv env "DISABLED_CALLBACKS");
  enableSwaggerEndpoint := flag_off (getenv env "ENABLE_SWAGGER_ENDPOINT");
  webVersion := getenv env "WEB_VERSION";
  webVersionCacheType := js_or (getenv env "WEB_VERSION_CACHE_TYPE") (JStr "none");
  recoverSessions := flag_off (getenv env "RECOVER_SESSIONS");
  chromeBin := js_or (getenv env "CHROME_BIN") JNull;
  headless := flag_dflt true (getenv env "HEADLESS");
  releaseBrowserLock := flag_dflt true (getenv env "RELEASE_BROWSER_LOCK");
  logLevel := js_or (getenv env "LOG_LEVEL") (JStr "info");
  enableWebHook := flag_dflt true (getenv env "ENABLE_WEBHOOK");
  enableWebSocket := flag_dflt false (getenv env "ENABLE_WEBSOCKET");
  autoStartSessions := flag_dflt true (getenv env "AUTO_START_SESSIONS");
  basePath := js_or (getenv env "BASE_PATH") (JStr "/");
  trustProxy := flag_dflt false (getenv env "TRUST_PROXY")
|}.

End Config.

(** ** server.js *)

Module Server.
Import Config.

(** What the entry point does to the outside world, in order. *)
Inductive effect : Type :=
| LogError (msg : string)
| LogInfo (msg : string)
| LogDebugConfiguration (cfg : config)
| ProcessExit (code : Z)
| AppListen (port : jsval)
| ServerOnUpgrade
| SetMaxListeners (n : Z)
| RestoreSessions.

Definition is_restore (e : effect) : bool :=
  match e with RestoreSessions => true | _ => false end.

Definition is_listen (e : effect) : bool :=
  match e with AppListen _ => true | _ => false end.

Definition is_exit (e : effect) : bool :=
  match e with ProcessExit _ => true | _ => false end.

(** [!baseWebhookURL && enableWebHook] *)
Definition webhook_url_missing (cfg : config) : bool :=
  negb (truthy (baseWebhookURL cfg)) && enableWebHook cfg.

(** The callback handed to [app.listen], run when the server listens. *)
Definition listen_callback (cfg : config) : list effect :=
  [ LogInfo (String.append "Server running on port " (js_to_string (servicePort cfg)));
    LogDebugConfiguration cfg ]
  ++ (if autoStartSessions cfg
      then [ LogInfo "Starting all sessions"; RestoreSessions ]
      else []).

(** The module's top-level statements after the startup check. *)
Definition start_server (cfg : config) : list effect :=
  [ AppListen (servicePort cfg) ]
  ++ (if enableWebSocket cfg then [ ServerOnUpgrade ] else [])
  ++ [ SetMaxListeners 0 ].

(** One run of the process: [process.exit] ends it on the spot; otherwise
    the top level runs to its end and the listen callback follows. *)
Definition main (cfg : config) : list effect :=
  if webhook_url_missing cfg
  then [ LogError "BASE_WEBHOOK_URL environment variable is not set. Exiting...";
         ProcessExit 1 ]
  else start_server cfg ++ listen_callback cfg.

Definition count (p : effect -> bool) (tr : list effect) : nat :=
  length (List.filter p tr).

End Server.


(** ** Errors, promises and the logger *)

(** A thrown [Error]: what [error.message] and [error.stack] read. *)
Record js_error : Type := {
  err_name : string;
  err_message : string;
  err_stack : string
}.

Definition error_to_js (e : js_error) : jsval :=
  JObj [ ("name", JStr (err_name e));
         ("message", JStr (err_message e));
         ("stack", JStr (err_stack e)) ].

(** [new Error(msg)] *)
Definition new_Error (msg : string) : js_error :=
  {| err_name := "Error"; err_message := msg; err_stack := "" |}.

(** How a promise settles. *)
Inductive settlement : Type :=
| Fulfilled (v : jsval)
| Rejected (e : js_error).

Inductive log_level : Type := LvlDebug | LvlInfo | LvlError.

(** One call of the pino logger: merging object and message. *)
Record log_entry : Type := {
  log_lvl : log_level;
  log_fields : list (string * jsval);
  log_msg : string
}.

(** ** The Express response object *)

(** [res]: the status set so far and what has been sent, oldest first. *)
Record response : Type := {
  statusCode : Z;
  sent : list (Z * jsval)
}.

Definition fresh_response : response := {| statusCode := 200; sent := [] |}.

(** [res.status(code)] *)
Definition res_status (res : response) (code : Z) : response :=
  {| statusCode := code; sent := sent res |}.

(** [res.json(body)]: the body is recorded as it was handed over; on the
    wire, [JSON.stringify] leaves out the properties whose value is
    undefined. *)
Definition res_json (res : response) (body : jsval) : response :=
  {| statusCode := statusCode res; sent := sent res ++ [ (statusCode res, body) ] |}.

(** ** src/utils.js *)

Module Utils.
Import Config.

(** *** The event loop seen by [triggerWebhook] *)

Record http_request : Type := {
  req_method : string;
  req_url : jsval;
  req_body : jsval;
  req_headers : list (string * jsval)
}.

(** What the endpoint does with a request. *)
Inductive http_outcome : Type :=
| NetworkError (e : js_error)
| HttpResponse (status : Z) (data : jsval).

(** axios settles its promise with the default [validateStatus]: a status
    in 200..299 fulfils, anything else rejects. *)
Definition axios_settle (o : http_outcome) : settlement :=
  match o with
  | NetworkError e => Rejected e
  | HttpResponse st d =>
      if ((200 <=? st) && (st <? 300))%Z
      then Fulfilled (JObj [ ("status", JNum st); ("data", d) ])
      else Rejected {| err_name := "AxiosError";
                       err_message := String.append "Request failed with status code "
                                                    (js_to_string (JNum st));
                       err_stack := "" |}
  end.

(** What runs when a promise settles: the promise derived from it and the
    log lines written on the way. *)
Definition reaction : Type := settlement -> settlement * list log_entry.

(** [p.then(f)] for a callback that logs and returns. *)
Definition on_then (f : jsval -> jsval * list log_entry) : reaction :=
  fun p => match p with
           | Fulfilled v => let (r, l) := f v in (Fulfilled r, l)
           | Rejected e => (Rejected e, [])
           end.

(** [p.catch(g)] for a callback that logs and returns. *)
Definition on_catch (g : js_error -> jsval * list log_entry) : reaction :=
  fun p => match p with
           | Fulfilled v => (Fulfilled v, [])
           | Rejected e => let (r, l) := g e in (Fulfilled r, l)
           end.

Definition after (r1 r2 : reaction) : reaction :=
  fun p => let (p1, l1) := r1 p in
           let (p2, l2) := r2 p1 in
           (p2, l1 ++ l2).

(** The process between two turns of the event loop. *)
Record loop : Type := {
  issued : list http_request;
  inflight : list (nat * reaction);
  logs : list log_entry;
  unhandled : list js_error;
  next_id : nat
}.

Definition loop_init : loop :=
  {| issued := []; inflight := []; logs := []; unhandled := []; next_id := 0 |}.

(** [axios.post(url, body, { headers })]: the request leaves and a pending
    promise comes back at once. *)
Definition axios_post (url body : jsval) (hdrs : list (string * jsval)) (st : loop)
  : nat * loop :=
  (next_id st,
   {| issued := issued st ++ [ {| req_method := "POST"; req_url := url;
                                  req_body := body; req_headers := hdrs |} ];
      inflight := inflight st ++ [ (next_id st, fun p => (p, [])) ];
      logs := logs st;
      unhandled := unhandled st;
      next_id := S (next_id st) |}).

(** Chaining [.then] or [.catch] on a pending promise. *)
Definition attach (id : nat) (r : reaction) (st : loop) : loop :=
  {| issued := issued st;
     inflight := map (fun pr => if Nat.eqb (fst pr) id
                                then (fst pr, after (snd pr) r) else pr)
                     (inflight st);
     logs := logs st;
     unhandled := unhandled st;
     next_id := next_id st |}.

Definition logger_debug (fields : list (string * jsval)) (msg : string)
  : jsval * list log_entry :=
  (JUndefined, [ {| log_lvl := LvlDebug; log_fields := fields; log_msg := msg |} ]).

Definition logger_error (fields : list (string * jsval)) (msg : string)
  : jsval * list log_entry :=
  (JUndefined, [ {| log_lvl := LvlError; log_fields := fields; log_msg := msg |} ]).

(** [triggerWebhook(webhookURL, sessionId, dataType, data)]: the value the
    call returns and the loop it leaves behind. *)
Definition triggerWebhook (cfg : config) (webhookURL sessionId dataType data : jsval)
    (st : loop) : jsval * loop :=
  if enableWebHook cfg then
    let (p, st1) :=
      axios_post webhookURL
        (JObj [ ("dataType", dataType); ("data", data); ("sessionId", sessionId) ])
        [ ("x-api-key", globalApiKey cfg) ] st in
    let st2 :=
      attach p (on_then (fun _ =>
        logger_debug [ ("sessionId", sessionId); ("dataType", dataType);
                       ("data", js_or data (JStr "")) ]
          (String.append "Webhook message sent to " (js_to_string webhookURL)))) st1 in
    let st3 :=
      attach p (on_catch (fun error =>
        logger_error [ ("sessionId", sessionId); ("dataType", dataType);
                       ("err", error_to_js error); ("data", js_or data (JStr "")) ]
          (String.append "Failed to send webhook message to "
                         (js_to_string webhookURL)))) st2 in
    (JUndefined, st3)
  else (JUndefined, st).

Fixpoint find_reaction (id : nat) (l : list (nat * reaction)) : option reaction :=
  match l with
  | [] => None
  | (i, r) :: rest => if Nat.eqb i id then Some r else find_reaction id rest
  end.

(** A later turn of the loop: request [id] comes back with outcome [o] and
    the reactions chained on its promise run.  A chain that ends rejected
    is an unhandled rejection. *)
Definition complete (id : nat) (o : http_outcome) (st : loop) : loop :=
  match find_reaction id (inflight st) with
  | None => st
  | Some r =>
      let (final, lines) := r (axios_settle o) in
      {| issued := issued st;
         inflight := List.filter (fun pr => negb (Nat.eqb (fst pr) id)) (inflight st);
         logs := logs st ++ lines;
         unhandled := unhandled st ++
                      match final with Rejected e => [e] | Fulfilled _ => [] end;
         next_id := next_id st |}
  end.

(** Turns of the loop that involve the dispatcher. *)
Inductive turn : Type :=
| Trigger (webhookURL sessionId dataType data : jsval)
| Complete (id : nat) (o : http_outcome).

Definition do_turn (cfg : config) (st : loop) (t : turn) : loop :=
  match t with
  | Trigger u s d x => snd (triggerWebhook cfg u s d x st)
  | Complete id o => complete id o st
  end.

Definition run (cfg : config) (turns : list turn) : loop :=
  fold_left (do_turn cfg) turns loop_init.

(** *** [isEventEnabled] *)

(** [arr.includes(x)] on an array of strings. *)
Definition includes (arr : list string) (x : string) : bool :=
  existsb (String.eqb x) arr.

Definition isEventEnabled (cfg : config) (event : string) : bool :=
  negb (includes (disabledCallbacks cfg) event).

(** *** [sendErrorResponse] *)

(** [res.status(status).json({ success: false, error: message })] *)
Definition sendErrorResponse (res : response) (status : Z) (message : jsval) : response :=
  res_json (res_status res status)
           (JObj [ ("success", JBool false); ("error", message) ]).

(** *** [waitForNestedObject] *)

(** A JavaScript number used as a deadline or a delay.  The elapsed times
    it is compared with are whole milliseconds, so a finite number acts
    through its floor. *)
Inductive jsnum : Type :=
| Finite (floor : Z)
| PosInfinity
| NegInfinity
| NaN.

(** [elapsed > n] for a whole number of milliseconds [elapsed]. *)
Definition exceeds (elapsed : Z) (n : jsnum) : bool :=
  match n with
  | Finite z => z <? elapsed
  | NegInfinity => true
  | PosInfinity | NaN => false
  end.

(** What reading a property gives: a value, or the exception of a getter
    or a proxy. *)
Inductive read : Type :=
| Value (v : jsval)
| Raises (e : js_error).

(** [obj[key]] on a truthy [obj], with everything the language puts
    behind it: own and inherited properties, the properties of
    primitives, getters. *)
Definition property_read : Type := jsval -> string -> read.

(** The property read of plain data objects: own properties only, and
    never an exception. *)
Definition own_read : property_read := fun obj key => Value (own_property obj key).

(** What the polling loop can observe of its surroundings: the root object
    as the k-th poll finds it (other code mutates it in between) and what
    [Date.now()] returns in the k-th poll.  Nothing is assumed of the
    clock. *)
Record world : Type := {
  root_at : nat -> jsval;
  clock : nat -> Z
}.

(** [nestedPath.split('.').reduce((obj, key) => obj ? obj[key] : undefined, rootObj)];
    an exception in a read ends the walk. *)
Definition nested (get : property_read) (rootObj : jsval) (nestedPath : string) : read :=
  fold_left (fun acc key =>
               match acc with
               | Value obj => if truthy obj then get obj key else Value JUndefined
               | Raises e => Raises e
               end)
            (split_on "." nestedPath) (Value rootObj).

(** What became of the returned promise: it settled, or an exception
    escaped a timer callback and left it pending. *)
Inductive fate : Type :=
| Settled (s : settlement)
| Uncaught (e : js_error).

(** The end of the polling: the promise's fate, at which poll, what was
    logged, and the delays handed to [setTimeout] on the way. *)
Record settled : Type := {
  outcome : fate;
  poll : nat;
  wrote : list log_entry;
  timers : list jsnum
}.

(** [checkObject], poll number [k], with [fuel] polls left to follow;
    [None] when the promise is still pending after them.  Poll 0 runs
    inside the promise's executor, where an exception rejects the promise;
    the later polls run as timer callbacks. *)
Fixpoint checkObject (get : property_read) (w : world) (nestedPath : string)
    (start : Z) (maxWaitTime interval : jsnum) (fuel k : nat) : option settled :=
  match fuel with
  | O => None
  | S fuel' =>
      match nested get (root_at w k) nestedPath with
      | Raises e =>
          Some {| outcome := match k with
                             | O => Settled (Rejected e)
                             | S _ => Uncaught e
                             end;
                  poll := k; wrote := []; timers := List.repeat interval k |}
      | Value nestedObj =>
          if truthy nestedObj then
            Some {| outcome := Settled (Fulfilled JUndefined);
                    poll := k; wrote := []; timers := List.repeat interval k |}
          else if exceeds (clock w k - start) maxWaitTime then
            Some {| outcome := Settled (Rejected (new_Error "Timeout waiting for nested object"));
                    poll := k;
                    wrote := [ {| log_lvl := LvlError; log_fields := [];
                                  log_msg := "Timed out waiting for nested object" |} ];
                    timers := List.repeat interval k |}
          else
            checkObject get w nestedPath start maxWaitTime interval fuel' (S k)
      end
  end.

(** [waitForNestedObject(rootObj, nestedPath, maxWaitTime = 10000, interval = 100)],
    called when [Date.now()] returns [start]; an omitted argument is
    [None]. *)
Definition waitForNestedObject (get : property_read) (w : world) (start : Z)
    (nestedPath : string) (maxWaitTime interval : option jsnum) (fuel : nat)
  : option settled :=
  checkObject get w nestedPath start
              (default (Finite 10000) maxWaitTime) (default (Finite 100) interval)
              fuel 0%nat.

(** *** [decodeBase64] *)

(** Node's [Buffer.from(s, 'base64')]: characters outside the alphabet
    (standard or URL-safe) are skipped, decoding stops at the first ['='],
    every four sextets give three bytes and a trailing group of two or
    three gives one or two. *)
Definition unbase64 (c : ascii) : option Z :=
  let n := Z.of_N (N_of_ascii c) in
  if (65 <=? n) && (n <=? 90) then Some (n - 65)
  else if (97 <=? n) && (n <=? 122) then Some (n - 71)
  else if (48 <=? n) && (n <=? 57) then Some (n + 4)
  else if (n =? 43) || (n =? 45) then Some 62
  else if (n =? 47) || (n =? 95) then Some 63
  else None.

Fixpoint sextets (s : string) : list Z :=
  match s with
  | EmptyString => []
  | String c rest =>
      if Ascii.eqb c "=" then []
      else match unbase64 c with
           | Some v => v :: sextets rest
           | None => sextets rest
           end
  end.

Definition byte1 (a b : Z) : Z :=
  Z.lor (Z.shiftl (Z.land a 63) 2) (Z.shiftr (Z.land b 48) 4).
Definition byte2 (b c : Z) : Z :=
  Z.lor (Z.shiftl (Z.land b 15) 4) (Z.shiftr (Z.land c 60) 2).
Definition byte3 (c d : Z) : Z :=
  Z.lor (Z.shiftl (Z.land c 3) 6) (Z.land d 63).

Fixpoint pack (l : list Z) : list Z :=
  match l with
  | a :: b :: c :: d :: rest => byte1 a b :: byte2 b c :: byte3 c d :: pack rest
  | [a; b; c] => [byte1 a b; byte2 b c]
  | [a; b] => [byte1 a b]
  | _ => []
  end.

Definition Buffer_from_base64 (s : string) : list Z := pack (sextets s).

Fixpoint drop (n : nat) (s : string) : string :=
  match n, s with
  | O, _ => s
  | S m, EmptyString => EmptyString
  | S m, String _ rest => drop m rest
  end.

Fixpoint take (n : nat) (s : string) : string :=
  match n, s with
  | O, _ => EmptyString
  | S m, EmptyString => EmptyString
  | S m, String c rest => String c (take m rest)
  end.

(** [s.slice(i, j)] for [0 <= i <= j]. *)
Definition slice (s : string) (i j : nat) : string := take (j - i) (drop i s).

Definition chunkSize : nat := 1024.

(** The generator's loop from index [i]: the Buffers it yields, in order. *)
Equations? decodeBase64_from (base64String : string) (i : nat) : list (list Z)
  by wf (String.length base64String - i)%nat lt :=
  decodeBase64_from base64String i with lt_dec i (String.length base64String) => {
    | left _ =>
        Buffer_from_base64 (slice base64String i (i + chunkSize))
        :: decodeBase64_from base64String (i + chunkSize);
    | right _ => [] }.
Proof.
  unfold chunkSize. lia.
Qed.

Definition decodeBase64 (base64String : string) : list (list Z) :=
  decodeBase64_from base64String 0.

(** A base64 string: alphabet characters, then nothing but padding. *)
Fixpoint all_padding (s : string) : bool :=
  match s with
  | EmptyString => true
  | String c rest => Ascii.eqb c "=" && all_padding rest
  end.

Fixpoint is_base64 (s : string) : bool :=
  match s with
  | EmptyString => true
  | String c rest =>
      if Ascii.eqb c "=" then all_padding rest
      else match unbase64 c with
           | Some _ => is_base64 rest
           | None => false
           end
  end.

End Utils.

(** ** The channel controller *)

Module Channel.

(** *** The Driver as the handlers see it *)

(** What a [throw] or a rejected promise carries: an [Error] object, or
    any other value ([null] and [undefined] included). *)
Inductive thrown : Type :=
| AnError (e : js_error)
| AValue (v : jsval).
Coercion AnError : js_error >-> thrown.

Inductive result (A : Type) : Type :=
| Ok (a : A)
| Throw (e : thrown).
Arguments Ok {A} a.
Arguments Throw {A} e.

(** A whatsapp-web.js client: each call either returns or throws. *)
Record client : Type := {
  client_getChatById : jsval -> result jsval;
  chat_method : jsval -> string -> list jsval -> result jsval
}.

(** The [sessions] map and the library's [MessageMedia.fromUrl]. *)
Record driver : Type := {
  sessions : gmap string client;
  MessageMedia_fromUrl : jsval -> jsval -> result jsval
}.

Inductive driver_call : Type :=
| GetChatById (chatId : jsval)
| ChatCall (chat : jsval) (method : string) (args : list jsval)
| FromUrl (url options : jsval).

Record request : Type := {
  params_sessionId : string;
  body : jsval
}.

(** *** Handler bodies: [res], the calls made so far, and exceptions *)

Record hstate : Type := {
  res : response;
  calls : list driver_call
}.

Definition hstate_init : hstate := {| res := fresh_response; calls := [] |}.

Definition M (A : Type) : Type := hstate -> result A * hstate.

Definition ret {A} (a : A) : M A := fun st => (Ok a, st).

Definition bind {A B} (m : M A) (k : A -> M B) : M B :=
  fun st => match m st with
            | (Ok a, st') => k a st'
            | (Throw e, st') => (Throw e, st')
            end.

Definition throw {A} (e : thrown) : M A := fun st => (Throw e, st).

(** [try { body } catch (error) { handler }] *)
Definition try_catch {A} (body_ : M A) (handler : thrown -> M A) : M A :=
  fun st => match body_ st with
            | (Ok a, st') => (Ok a, st')
            | (Throw e, st') => handler e st'
            end.

Notation "x <- m ;; k" := (bind m (fun x => k))
  (at level 100, m at next level, right associativity).

(** Awaiting a Driver call: it is recorded, then returns or throws. *)
Definition driver_await (c : driver_call) (r : result jsval) : M jsval :=
  fun st => (r, {| res := res st; calls := calls st ++ [c] |}).

Definition TypeError (msg : string) : js_error :=
  {| err_name := "TypeError"; err_message := msg; err_stack := "" |}.

(** [error.message] in a catch block: the message of an [Error]; a
    [TypeError] when what was thrown is [undefined] or [null]; and for any
    other value its [message] property, undefined on a primitive. *)
Definition error_message (error : thrown) : M jsval :=
  match error with
  | AnError e => ret (JStr (err_message e))
  | AValue JUndefined =>
      throw (TypeError "Cannot read properties of undefined (reading 'message')")
  | AValue JNull =>
      throw (TypeError "Cannot read properties of null (reading 'message')")
  | AValue v => ret (own_property v "message")
  end.

(** [const { ... } = v]: destructuring undefined or null throws. *)
Definition destructure (v : jsval) : M (string -> jsval) :=
  match v with
  | JUndefined | JNull =>
      throw (TypeError "Cannot destructure property of undefined or null")
  | _ => ret (own_property v)
  end.

(** [v.k]: reading a property of undefined or null throws. *)
Definition member (v : jsval) (k : string) : M jsval :=
  match v with
  | JUndefined | JNull =>
      throw (TypeError (String.append "Cannot read properties of undefined (reading '"
                                      (String.append k "')")))
  | _ => ret (own_property v k)
  end.

(** A destructuring default [{ k = d }]: used when the property is undefined. *)
Definition dflt (v d : jsval) : jsval :=
  match v with JUndefined => d | _ => v end.

(** [Object.keys(v).length] *)
Definition keys_length (v : jsval) : M nat :=
  match v with
  | JUndefined | JNull =>
      throw (TypeError "Cannot convert undefined or null to object")
  | JObj props => ret (length props)
  | JStr s => ret (String.length s)
  | _ => ret 0%nat
  end.

(** [v === 'lit'] *)
Definition is_string (v : jsval) (lit : string) : bool :=
  match v with JStr s => String.eqb s lit | _ => false end.

(** [sessions.get(req.params.sessionId)] *)
Definition sessions_get (d : driver) (req : request) : option client :=
  sessions d !! params_sessionId req.

(** [await client.getChatById(chatId)] *)
Definition getChatById (cl : option client) (chatId : jsval) : M jsval :=
  match cl with
  | None => throw (TypeError "Cannot read properties of undefined (reading 'getChatById')")
  | Some c => driver_await (GetChatById chatId) (client_getChatById c chatId)
  end.

(** [await chat.method(...args)] *)
Definition chat_call (cl : option client) (chat : jsval) (method : string)
    (args : list jsval) : M jsval :=
  match cl with
  | None => throw (TypeError "client is undefined")
  | Some c => driver_await (ChatCall chat method args) (chat_method c chat method args)
  end.

(** [await MessageMedia.fromUrl(url, options)] *)
Definition fromUrl (d : driver) (url options : jsval) : M jsval :=
  driver_await (FromUrl url options) (MessageMedia_fromUrl d url options).

(** [new MessageMedia(mimetype, data, filename, filesize)] *)
Definition new_MessageMedia (mimetype data filename filesize : jsval) : jsval :=
  JObj [ ("mimetype", mimetype); ("data", data);
         ("filename", filename); ("filesize", filesize) ].

Definition res_json_ (v : jsval) : M unit :=
  fun st => (Ok tt, {| res := res_json (res st) v; calls := calls st |}).

Definition sendErrorResponse (status : Z) (message : jsval) : M unit :=
  fun st => (Ok tt, {| res := Utils.sendErrorResponse (res st) status message;
                       calls := calls st |}).

(** [v?.k] *)
Definition optional_member (v : jsval) (k : string) : jsval :=
  match v with
  | JUndefined | JNull => JUndefined
  | _ => own_property v k
  end.

Definition success (key : string) (v : jsval) : jsval :=
  JObj [ ("success", JBool true); (key, v) ].

(** *** The handlers, in the order of the source file *)

Definition getClassInfo (d : driver) (req : request) : M unit :=
  try_catch
    (b <- destructure (body req) ;;
     let chatId := b "chatId" in
     let client := sessions_get d req in
     chat <- getChatById client chatId ;;
     if negb (truthy chat) then
       sendErrorResponse 404 (JStr "Channel not Found")
     else if negb (truthy (own_property chat "isChannel")) then
       sendErrorResponse 400 (JStr "The chat is not a channel")
     else
       res_json_ (success "channel" chat))
    (fun error => message <- error_message error ;; sendErrorResponse 500 message).

Definition sendMessage (d : driver) (req : request) : M unit :=
  try_catch
    (b <- destructure (body req) ;;
     let chatId := b "chatId" in
     let content := b "content" in
     let contentType := b "contentType" in
     let options := b "options" in
     let mediaFromURLOptions := dflt (b "mediaFromURLOptions") (JObj []) in
     let sendOptions := JObj (spread [ ("waitUntilMsgSent", JBool true) ] options) in
     let client := sessions_get d req in
     chat <- getChatById client chatId ;;
     if negb (truthy chat) then
       sendErrorResponse 404 (JStr "Channel not Found")
     else if negb (truthy (own_property chat "isChannel")) then
       sendErrorResponse 400 (JStr "The chat is not a channel")
     else if is_string contentType "string" then
       (messageOut <- chat_call client chat "sendMessage" [content; sendOptions] ;;
        res_json_ (success "message" messageOut))
     else if is_string contentType "MessageMediaFromURL" then
       (messageMediaFromURL <-
          fromUrl d content
                  (JObj (spread [ ("unsafeMime", JBool true) ] mediaFromURLOptions)) ;;
        messageOut <- chat_call client chat "sendMessage"
                                [messageMediaFromURL; sendOptions] ;;
        res_json_ (success "message" messageOut))
     else if is_string contentType "MessageMedia" then
       (mimetype <- member content "mimetype" ;;
        data <- member content "data" ;;
        filename <- member content "filename" ;;
        filesize <- member content "filesize" ;;
        let messageMedia := new_MessageMedia mimetype data filename filesize in
        messageOut <- chat_call client chat "sendMessage" [messageMedia; sendOptions] ;;
        res_json_ (success "message" messageOut))
     else
       sendErrorResponse 400 (JStr "invalid contentType"))
    (fun error => message <- error_message error ;; sendErrorResponse 500 message).

Definition fetchMessages (d : driver) (req : request) : M unit :=
  try_catch
    (b <- destructure (body req) ;;
     let chatId := b "chatId" in
     let searchOptions := dflt (b "searchOptions") (JObj []) in
     let client := sessions_get d req in
     chat <- getChatById client chatId ;;
     if negb (truthy chat) then
       sendErrorResponse 404 (JStr "Channel not Found")
     else if negb (truthy (own_property chat "isChannel")) then
       sendErrorResponse 400 (JStr "The chat is not a channel")
     else
       (n <- keys_length searchOptions ;;
        messages <- (if negb (Nat.eqb n 0)
                     then chat_call client chat "fetchMessages" [searchOptions]
                     else chat_call client chat "fetchMessages" []) ;;
        res_json_ (success "messages" messages)))
    (fun error => message <- error_message error ;; sendErrorResponse 500 message).

Definition sendSeen (d : driver) (req : request) : M unit :=
  try_catch
    (b <- destructure (body req) ;;
     let chatId := b "chatId" in
     let client := sessions_get d req in
     chat <- getChatById client chatId ;;
     if negb (truthy chat) then
       sendErrorResponse 404 (JStr "Channel not Found")
     else if negb (truthy (own_property chat "isChannel")) then
       sendErrorResponse 400 (JStr "The chat is not a channel")
     else
       (result <- chat_call client chat "sendSeen" [] ;;
        res_json_ (success "result" result)))
    (fun error => message <- error_message error ;; sendErrorResponse 500 message).

Definition mute (d : driver) (req : request) : M unit :=
  try_catch
    (b <- destructure (body req) ;;
     let chatId := b "chatId" in
     let client := sessions_get d req in
     chat <- getChatById client chatId ;;
     if negb (truthy chat) then
       sendErrorResponse 404 (JStr "Channel not Found")
     else if negb (truthy (own_property chat "isChannel")) then
       sendErrorResponse 400 (JStr "The chat is not a channel")
     else
       (result <- chat_call client chat "mute" [] ;;
        res_json_ (success "result" result)))
    (fun error => message <- error_message error ;; sendErrorResponse 500 message).

Definition unmute (d : driver) (req : request) : M unit :=
  try_catch
    (b <- destructure (body req) ;;
     let chatId := b "chatId" in
     let client := sessions_get d req in
     chat <- getChatById client chatId ;;
     if negb (truthy chat) then
       sendErrorResponse 404 (JStr "Channel not Found")
     else if negb (truthy (own_property chat "isChannel")) then
       sendErrorResponse 400 (JStr "The chat is not a channel")
     else
       (result <- chat_call client chat "unmute" [] ;;
        res_json_ (success "result" result)))
    (fun error => message <- error_message error ;; sendErrorResponse 500 message).

Definition setSubject (d : driver) (req : request) : M unit :=
  try_catch
    (b <- destructure (body req) ;;
     let chatId := b "chatId" in
     let newSubject := dflt (b "newSubject") (JStr "") in
     let client := sessions_get d req in
     chat <- getChatById client chatId ;;
     if negb (truthy chat) then
       sendErrorResponse 404 (JStr "Channel not Found")
     else if negb (truthy (own_property chat "isChannel")) then
       sendErrorResponse 400 (JStr "The chat is not a channel")
     else
       (result <- chat_call client chat "setSubject" [newSubject] ;;
        res_json_ (success "result" result)))
    (fun error => message <- error_message error ;; sendErrorResponse 500 message).

Definition acceptChannelAdminInvite (d : driver) (req : request) : M unit :=
  try_catch
    (b <- destructure (body req) ;;
     let chatId := b "chatId" in
     let client := sessions_get d req in
     chat <- getChatById client chatId ;;
     if negb (truthy chat) then
       sendErrorResponse 404 (JStr "Channel not Found")
     else if negb (truthy (own_property chat "isChannel")) then
       sendErrorResponse 400 (JStr "The chat is not a channel")
     else
       (result <- chat_call client chat "acceptChannelAdminInvite" [] ;;
        res_json_ (success "result" result)))
    (fun error => message <- error_message error ;; sendErrorResponse 500 message).

Definition sendChannelAdminInvite (d : driver) (req : request) : M unit :=
  try_catch
    (b <- destructure (body req) ;;
     let chatId := b "chatId" in
     let userId := b "userId" in
     let options := b "options" in
     let client := sessions_get d req in
     chat <- getChatById client chatId ;;
     if negb (truthy chat) then
       sendErrorResponse 404 (JStr "Channel not Found")
     else if negb (truthy (own_property chat "isChannel")) then
       sendErrorResponse 400 (JStr "The chat is not a channel")
     else
       (result <- (if truthy options
                   then chat_call client chat "sendChannelAdminInvite" [userId; options]
                   else chat_call client chat "sendChannelAdminInvite" [userId]) ;;
        res_json_ (success "result" result)))
    (fun error => message <- error_message error ;; sendErrorResponse 500 message).

Definition demoteChannelAdmin (d : driver) (req : request) : M unit :=
  try_catch
    (b <- destructure (body req) ;;
     let chatId := b "chatId" in
     let userId := b "userId" in
     let client := sessions_get d req in
     chat <- getChatById client chatId ;;
     if negb (truthy chat) then
       sendErrorResponse 404 (JStr "Channel not Found")
     else if negb (truthy (own_property chat "isChannel")) then
       sendErrorResponse 400 (JStr "The chat is not a channel")
     else
       (result <- chat_call client chat "demoteChannelAdmin" [userId] ;;
        res_json_ (success "result" result)))
    (fun error => message <- error_message error ;; sendErrorResponse 500 message).

Definition transferChannelOwnership (d : driver) (req : request) : M unit :=
  try_catch
    (b <- destructure (body req) ;;
     let chatId := b "chatId" in
     let newOwnerId := b "newOwnerId" in
     let options := b "options" in
     let client := sessions_get d req in
     chat <- getChatById client chatId ;;
     if negb (truthy chat) then
       sendErrorResponse 404 (JStr "Channel not Found")
     else if negb (truthy (own_property chat "isChannel")) then
       sendErrorResponse 400 (JStr "The chat is not a channel")
     else
       (result <- (if truthy options
                   then chat_call client chat "transferChannelOwnership" [newOwnerId; options]
                   else chat_call client chat "transferChannelOwnership" [newOwnerId]) ;;
        res_json_ (success "result" result)))
    (fun error => message <- error_message error ;; sendErrorResponse 500 message).

Definition revokeChannelAdminInvite (d : driver) (req : request) : M unit :=
  try_catch
    (b <- destructure (body req) ;;
     let chatId := b "chatId" in
     let userId := b "userId" in
     let client := sessions_get d req in
     chat <- getChatById client chatId ;;
     if negb (truthy chat) then
       sendErrorResponse 404 (JStr "Channel not Found")
     else if negb (truthy (own_property chat "isChannel")) then
       sendErrorResponse 400 (JStr "The chat is not a channel")
     else
       (result <- chat_call client chat "revokeChannelAdminInvite" [userId] ;;
        res_json_ (success "result" result)))
    (fun error => message <- error_message error ;; sendErrorResponse 500 message).

Definition getSubscribers (d : driver) (req : request) : M unit :=
  try_catch
    (b <- destructure (body req) ;;
     let chatId := b "chatId" in
     let limit := dflt (b "limit") (JNull) in
     let client := sessions_get d req in
     chat <- getChatById client chatId ;;
     if negb (truthy chat) then
       sendErrorResponse 404 (JStr "Channel not Found")
     else if negb (truthy (own_property chat "isChannel")) then
       sendErrorResponse 400 (JStr "The chat is not a channel")
     else
       (result <- chat_call client chat "getSubscribers" [limit] ;;
        res_json_ (success "result" result)))
    (fun error => message <- error_message error ;; sendErrorResponse 500 message).

Definition deleteChannel (d : driver) (req : request) : M unit :=
  try_catch
    (b <- destructure (body req) ;;
     let chatId := b "chatId" in
     let client := sessions_get d req in
     chat <- getChatById client chatId ;;
     if negb (truthy chat) then
       sendErrorResponse 404 (JStr "Channel not Found")
     else if negb (truthy (own_property chat "isChannel")) then
       sendErrorResponse 400 (JStr "The chat is not a channel")
     else
       (result <- chat_call client chat "deleteChannel" [] ;;
        res_json_ (success "result" result)))
    (fun error => message <- error_message error ;; sendErrorResponse 500 message).

Definition setReactionSetting (d : driver) (req : request) : M unit :=
  try_catch
    (b <- destructure (body req) ;;
     let chatId := b "chatId" in
     let reactionCode := dflt (b "reactionCode") (JNum 0) in
     let client := sessions_get d req in
     chat <- getChatById client chatId ;;
     if negb (truthy chat) then
       sendErrorResponse 404 (JStr "Channel not Found")
     else if negb (truthy (own_property chat "isChannel")) then
       sendErrorResponse 400 (JStr "The chat is not a channel")
     else
       (result <- chat_call client chat "setReactionSetting" [reactionCode] ;;
        res_json_ (success "result" result)))
    (fun error => message <- error_message error ;; sendErrorResponse 500 message).

Definition setDescription (d : driver) (req : request) : M unit :=
  try_catch
    (b <- destructure (body req) ;;
     let chatId := b "chatId" in
     let newDescription := dflt (b "newDescription") (JStr "") in
     let client := sessions_get d req in
     chat <- getChatById client chatId ;;
     if negb (truthy chat) then
       sendErrorResponse 404 (JStr "Channel not Found")
     else if negb (truthy (own_property chat "isChannel")) then
       sendErrorResponse 400 (JStr "The chat is not a channel")
     else
       (result <- chat_call client chat "setDescription" [newDescription] ;;
        res_json_ (success "result" result)))
    (fun error => message <- error_message error ;; sendErrorResponse 500 message).

Definition setProfilePicture (d : driver) (req : request) : M unit :=
  try_catch
    (b <- destructure (body req) ;;
     let chatId := b "chatId" in
     let newProfilePictureUrl := b "newProfilePictureUrl" in
     let newProfilePictureMedia := b "newProfilePictureMedia" in
     let client := sessions_get d req in
     chat <- getChatById client chatId ;;
     if negb (truthy chat) then
       sendErrorResponse 404 (JStr "Channel not Found")
     else if negb (truthy (own_property chat "isChannel")) then
       sendErrorResponse 400 (JStr "The chat is not a channel")
     else
       (fromUrlMedia <- (if truthy newProfilePictureUrl
                         then fromUrl d newProfilePictureUrl
                                      (JObj [ ("unsafeMime", JBool true) ])
                         else ret newProfilePictureUrl) ;;
        let messageMedia :=
          if truthy (optional_member newProfilePictureMedia "data")
          then new_MessageMedia (own_property newProfilePictureMedia "mimetype")
                                (own_property newProfilePictureMedia "data")
                                JNull JNull
          else fromUrlMedia in
        result <- chat_call client chat "setProfilePicture" [messageMedia] ;;
        res_json_ (success "result" result)))
    (fun error => message <- error_message error ;; sendErrorResponse 500 message).

(** [module.exports], in its order. *)
Definition handlers : list (string * (driver -> request -> M unit)) :=
  [ ("getClassInfo", getClassInfo);
    ("sendMessage", sendMessage);
    ("fetchMessages", fetchMessages);
    ("sendSeen", sendSeen);
    ("mute", mute);
    ("unmute", unmute);
    ("acceptChannelAdminInvite", acceptChannelAdminInvite);
    ("sendChannelAdminInvite", sendChannelAdminInvite);
    ("revokeChannelAdminInvite", revokeChannelAdminInvite);
    ("transferChannelOwnership", transferChannelOwnership);
    ("demoteChannelAdmin", demoteChannelAdmin);
    ("getSubscribers", getSubscribers);
    ("setProfilePicture", setProfilePicture);
    ("setDescription", setDescription);
    ("setSubject", setSubject);
    ("setReactionSetting", setReactionSetting);
    ("deleteChannel", deleteChannel) ].

(** One request served from a fresh [res]. *)
Definition serve (h : driver -> request -> M unit) (d : driver) (req : request)
  : result unit * hstate :=
  h d req hstate_init.

End Channel.

(** ** Asynchronous functions over a state *)

Module Async.
Import Channel.

(** An [async] function body: it runs on a state, returns or throws, and
    leaves a state. *)
Definition M (S A : Type) : Type := S -> result A * S.

Definition ret {S A} (a : A) : M S A := fun st => (Ok a, st).

Definition bind {S A B} (m : M S A) (k : A -> M S B) : M S B :=
  fun st => match m st with
            | (Ok a, st') => k a st'
            | (Throw e, st') => (Throw e, st')
            end.

(** [try { body } catch (error) { handler }] *)
Definition try_catch {S A} (body_ : M S A) (handler : thrown -> M S A) : M S A :=
  fun st => match body_ st with
            | (Ok a, st') => (Ok a, st')
            | (Throw e, st') => handler e st'
            end.

End Async.

(** ** src/utils.js: [sendMessageSeenStatus] *)

Module Seen.
Import Channel Async.

(** What the function does to the outside, in order. *)
Inductive event : Type :=
| GetChat
| SendSeen (chat : jsval)
| LoggedError (err : thrown) (msg : string).

(** A received message as the function uses it: what [message.getChat()]
    settles to and what [chat.sendSeen()] settles to on a given chat. *)
Record message : Type := {
  getChat : result jsval;
  sendSeen : jsval -> result jsval
}.

Definition await (ev : event) (r : result jsval) : M (list event) jsval :=
  fun tr => (r, tr ++ [ev]).

(** [await chat.sendSeen()]: reading the method of undefined or null
    throws before anything is called. *)
Definition chat_sendSeen (m : message) (chat : jsval) : M (list event) jsval :=
  match chat with
  | JUndefined =>
      fun tr => (Throw (TypeError "Cannot read properties of undefined (reading 'sendSeen')"), tr)
  | JNull =>
      fun tr => (Throw (TypeError "Cannot read properties of null (reading 'sendSeen')"), tr)
  | _ => await (SendSeen chat) (sendSeen m chat)
  end.

(** [logger.error(error, msg)] *)
Definition logger_error (error : thrown) (msg : string) : M (list event) unit :=
  fun tr => (Ok tt, tr ++ [LoggedError error msg]).

Definition sendMessageSeenStatus (m : message) : M (list event) unit :=
  try_catch
    (bind (await GetChat (getChat m)) (fun chat =>
     bind (chat_sendSeen m chat) (fun _ =>
     ret tt)))
    (fun error => logger_error error "Failed to send seen status").

End Seen.

(** ** src/utils.js: [exposeFunctionIfAbsent] *)

Module Page.
Import Channel Async.

(** A live browser page as puppeteer shows it: the globals of [window]
    and the functions exposed so far, by name. *)
Record page : Type := {
  window : gmap string jsval;
  bindings : gmap string jsval
}.

(** The wrapper puppeteer installs on [window] for an exposed function. *)
Definition binding_stub : jsval := JObj [].

(** [page.evaluate((name) => !!window[name], name)] *)
Definition evaluate_exists (name : string) : M page bool :=
  fun p => (Ok (match window p !! name with
                | Some v => truthy v
                | None => false
                end), p).

(** [page.exposeFunction(name, fn)]: refused when the page already has a
    binding of that name; otherwise the binding is recorded and installed
    on [window]. *)
Definition exposeFunction (name : string) (fn : jsval) : M page unit :=
  fun p => match bindings p !! name with
           | Some _ =>
               (Throw (new_Error
                  (String.append "Failed to add page binding with name "
                     (String.append name
                        (String.append ": window['"
                           (String.append name "'] already exists!"))))), p)
           | None =>
               (Ok tt, {| window := <[name := binding_stub]> (window p);
                          bindings := <[name := fn]> (bindings p) |})
           end.

Definition exposeFunctionIfAbsent (name : string) (fn : jsval) : M page unit :=
  bind (evaluate_exists name) (fun exist =>
  if exist then ret tt
  else exposeFunction name fn).

End Page.

(** ** src/utils.js: the page functions of [patchWWebLibrary] *)

Module Patch.

(** A message model of the page's store, as the filter reads it. *)
Record message : Type := {
  msg_serialized : string;
  isNotification : bool;
  fromMe : bool;
  t : Z
}.

(** [searchOptions] of [fetchMessages], with fields of the documented
    types; an absent field is undefined. *)
Record messageSearch : Type := {
  search_fromMe : option bool;
  search_since : option Z;
  search_limit : option Z
}.

(** [msgFilter], closed over [searchOptions] ([None] is a falsy value). *)
Definition msgFilter (searchOptions : option messageSearch) (m : message) : bool :=
  if isNotification m then false
  else if match searchOptions with
          | Some o => match search_fromMe o with
                      | Some b => negb (Bool.eqb (fromMe m) b)
                      | None => false
                      end
          | None => false
          end then false
  else if match searchOptions with
          | Some o => match search_since o with
                      | Some since => t m <? since
                      | None => false
                      end
          | None => false
          end then false
  else true.

(** The [while (msgs.length < searchOptions.limit)] loop.  [earlier] holds
    what the successive calls of [loadEarlierMsgs] return; when it runs
    out the store has nothing more and the call returns undefined. *)
Fixpoint load_earlier (searchOptions : option messageSearch) (limit : Z)
    (earlier : list (list message)) (msgs : list message) : list message :=
  if Z.of_nat (length msgs) <? limit then
    match earlier with
    | [] => msgs
    | loadedMessages :: rest =>
        match loadedMessages with
        | [] => msgs
        | _ => load_earlier searchOptions limit rest
                 (List.filter (msgFilter searchOptions) loadedMessages ++ msgs)
        end
    end
  else msgs.

(** The function [fetchMessages] evaluates in the page, up to the final
    serialisation of each message.  [array_sort] is the engine's
    [Array.prototype.sort] under the comparator [(a, b) => a.t > b.t ? 1 : -1]. *)
Definition fetchMessages (array_sort : list message -> list message)
    (searchOptions : option messageSearch)
    (models : list message) (earlier : list (list message)) : list message :=
  let msgs := List.filter (msgFilter searchOptions) models in
  match searchOptions with
  | Some o =>
      match search_limit o with
      | Some limit =>
          if 0 <? limit then
            let msgs := load_earlier searchOptions limit earlier msgs in
            if limit <? Z.of_nat (length msgs)
            then skipn (length msgs - Z.to_nat limit) (array_sort msgs)
            else msgs
          else msgs
      | None => msgs
      end
  | None => msgs
  end.

(** A chat model of the page's store; a chat that never had a message has
    no [t]. *)
Record chat : Type := {
  chat_serialized : string;
  unreadCount : Z;
  chat_t : option Z
}.

(** [searchOptions] of [getChats]. *)
Record chatSearch : Type := {
  search_unread : option bool;
  search_chats_since : option Z
}.

(** [chatFilter] of the patched [window.WWebJS.getChats]. *)
Definition chatFilter (searchOptions : option chatSearch) (c : chat) : bool :=
  if match searchOptions with
     | Some o => match search_unread o with
                 | Some true => unreadCount c =? 0
                 | _ => false
                 end
     | None => false
     end then false
  else if match searchOptions with
          | Some o => match search_chats_since o, chat_t c with
                      | Some since, Some ct => ct <? since
                      | _, _ => false
                      end
          | None => false
          end then false
  else true.

(** [window.WWebJS.getChats(searchOptions)], up to the serialisation of
    each chat. *)
Definition getChats (searchOptions : option chatSearch) (allChats : list chat) : list chat :=
  List.filter (chatFilter searchOptions) allChats.

End Patch.

(** * Properties *)

Import Config.

(** ** Startup *)

Section Startup.
Import Server.

Lemma count_app (p : effect -> bool) (a b : list effect) :
  count p (a ++ b) = (count p a + count p b)%nat.
Proof.
  unfold count. now rewrite List.filter_app, List.length_app.
Qed.

Lemma start_server_no_restore (cfg : config) :
  count is_restore (start_server cfg) = 0%nat.
Proof. unfold start_server. destruct (enableWebSocket cfg); reflexivity. Qed.

Lemma listen_callback_restore (cfg : config) :
  count is_restore (listen_callback cfg) = if autoStartSessions cfg then 1%nat else 0%nat.
Proof. unfold listen_callback. destruct (autoStartSessions cfg); reflexivity. Qed.

Lemma start_server_no_exit (cfg : config) : count is_exit (start_server cfg) = 0%nat.
Proof. unfold start_server. destruct (enableWebSocket cfg); reflexivity. Qed.

Lemma listen_callback_no_exit (cfg : config) : count is_exit (listen_callback cfg) = 0%nat.
Proof. unfold listen_callback. destruct (autoStartSessions cfg); reflexivity. Qed.

(** C10: when webhook delivery is enabled and no base webhook URL is
    configured, the process logs one error and exits with code 1 and
    [app.listen] is never reached; in every other configuration the process
    does not exit and calls [app.listen] once, first thing, on the
    configured port. *)
Theorem startup_exits_or_listens (cfg : config) :
  if enableWebHook cfg && negb (truthy (baseWebhookURL cfg))
  then main cfg =
         [ LogError "BASE_WEBHOOK_URL environment variable is not set. Exiting...";
           ProcessExit 1 ]
       /\ count is_listen (main cfg) = 0%nat
  else (exists rest, main cfg = AppListen (servicePort cfg) :: rest)
       /\ count is_listen (main cfg) = 1%nat
       /\ count is_exit (main cfg) = 0%nat.
Proof.
  unfold main, webhook_url_missing.
  destruct (enableWebHook cfg), (truthy (baseWebhookURL cfg)); simpl;
    try (split; reflexivity).
  all: split; [eexists; reflexivity|].
  all: unfold listen_callback;
    destruct (enableWebSocket cfg), (autoStartSessions cfg); split; reflexivity.
Qed.

(** The configuration the startup check reads, in terms of the environment. *)
Lemma load_startup_settings (env : gmap string string) :
  baseWebhookURL (load env) = getenv env "BASE_WEBHOOK_URL"
  /\ enableWebHook (load env) = flag_dflt true (getenv env "ENABLE_WEBHOOK")
  /\ autoStartSessions (load env) = flag_dflt true (getenv env "AUTO_START_SESSIONS")
  /\ servicePort (load env) = js_or (getenv env "PORT") (JNum 3000).
Proof. repeat split. Qed.

(** C5, as stated, fails: with an empty environment the recovery flag
    [autoStartSessions] is set (its default), yet the startup check ends
    the process and [restoreSessions] is never invoked. *)
Lemma restoreSessions_skipped_on_exit :
  autoStartSessions (load ∅) = true
  /\ count is_restore (main (load ∅)) = 0%nat
  /\ main (load ∅) =
       [ LogError "BASE_WEBHOOK_URL environment variable is not set. Exiting...";
         ProcessExit 1 ].
Proof. repeat split. Qed.

(** The flag that gates the startup call is AUTO_START_SESSIONS;
    RECOVER_SESSIONS plays no part in it. *)
Example restoreSessions_gated_by_autoStartSessions :
  let env : gmap string string :=
    {[ "BASE_WEBHOOK_URL" := "http://localhost:3000/localCallbackExample";
       "RECOVER_SESSIONS" := "TRUE";
       "AUTO_START_SESSIONS" := "FALSE" ]} in
  recoverSessions (load env) = true
  /\ count is_restore (main (load env)) = 0%nat.
Proof. split; reflexivity. Qed.

(** C5, amended: [restoreSessions] is invoked exactly once when the
    startup check lets the process go on and [autoStartSessions] is set,
    and never otherwise; the one invocation comes from the listen callback,
    not from the top-level statements. *)
Theorem restoreSessions_once_after_check (cfg : config) :
  count is_restore (main cfg) =
    (if negb (webhook_url_missing cfg) && autoStartSessions cfg then 1%nat else 0%nat)
  /\ count is_restore (start_server cfg) = 0%nat
  /\ count is_restore (listen_callback cfg) =
       (if autoStartSessions cfg then 1%nat else 0%nat).
Proof.
  split; [|split; [apply start_server_no_restore | apply listen_callback_restore]].
  unfold main. destruct (webhook_url_missing cfg); [reflexivity|].
  cbn [negb andb]. rewrite count_app, start_server_no_restore, listen_callback_restore.
  reflexivity.
Qed.

End Startup.

(** ** The event filter *)

Section EventFilter.
Import Utils.

Lemma split_on_nonempty (sep : ascii) (s : string) : split_on sep s <> [].
Proof.
  destruct s as [|c rest]; simpl; [discriminate|].
  destruct (Ascii.eqb c sep); [discriminate|].
  destruct (split_on sep rest); discriminate.
Qed.

(** Splitting loses nothing: joining the pieces gives the string back. *)
Lemma join_split_on (sep : ascii) (s : string) : join_with sep (split_on sep s) = s.
Proof.
  induction s as [|c rest IH]; [reflexivity|].
  simpl. destruct (Ascii.eqb c sep) eqn:E.
  - apply Ascii.eqb_eq in E. subst c.
    pose proof (split_on_nonempty sep rest) as Hne.
    destruct (split_on sep rest) as [|w ws]; [congruence|].
    change (join_with sep (EmptyString :: w :: ws))
      with (String sep (join_with sep (w :: ws))).
    now rewrite IH.
  - pose proof (split_on_nonempty sep rest) as Hne.
    destruct (split_on sep rest) as [|w ws]; [congruence|].
    destruct ws as [|w' ws]; simpl in *; now rewrite <- IH.
Qed.

(** No piece holds the separator. *)
Lemma split_on_pieces (sep : ascii) (s w : string) :
  In w (split_on sep s) -> has_char sep w = false.
Proof.
  revert w. induction s as [|c rest IH]; intros w Hin.
  - simpl in Hin. destruct Hin as [<-|[]]. reflexivity.
  - simpl in Hin. destruct (Ascii.eqb c sep) eqn:E.
    + destruct Hin as [<-|Hin]; [reflexivity | now apply IH].
    + pose proof (split_on_nonempty sep rest) as Hne.
      destruct (split_on sep rest) as [|w0 ws]; [congruence|].
      destruct Hin as [<-|Hin].
      * simpl. rewrite E. apply IH. now left.
      * apply IH. now right.
Qed.

Lemma includes_In (arr : list string) (x : string) :
  includes arr x = true <-> In x arr.
Proof.
  unfold includes. rewrite existsb_exists. split.
  - intros [y [Hy Heq]]. apply String.eqb_eq in Heq. now subst.
  - intros Hin. exists x. split; [assumption | apply String.eqb_refl].
Qed.

Lemma split_on_plain (sep : ascii) (w : string) :
  has_char sep w = false -> split_on sep w = [w].
Proof.
  induction w as [|c w IH]; [reflexivity|]. simpl.
  destruct (Ascii.eqb c sep); [discriminate|]. simpl.
  intros H. now rewrite IH.
Qed.

Lemma split_on_append (sep : ascii) (w rest : string) :
  has_char sep w = false ->
  split_on sep (String.append w (String sep rest)) = w :: split_on sep rest.
Proof.
  induction w as [|c w IH]; simpl.
  - now rewrite Ascii.eqb_refl.
  - destruct (Ascii.eqb c sep); [discriminate|]. simpl.
    intros H. now rewrite IH.
Qed.

(** Joining separator-free names and splitting again gives the names back. *)
Lemma split_on_join (sep : ascii) (names : list string) :
  names <> [] ->
  Forall (fun n => has_char sep n = false) names ->
  split_on sep (join_with sep names) = names.
Proof.
  intros Hne Hall. induction Hall as [|w ws Hw Hws IH]; [congruence|].
  destruct ws as [|w' ws].
  - simpl. now apply split_on_plain.
  - change (join_with sep (w :: w' :: ws))
      with (String.append w (String sep (join_with sep (w' :: ws)))).
    rewrite split_on_append by exact Hw. f_equal. apply IH. discriminate.
Qed.

(** C4: an event type is enabled exactly when it is not among the
    suppressed types.  With DISABLED_CALLBACKS unset or empty nothing is
    suppressed and every event type is enabled; otherwise the suppressed
    types are the pieces of its value split on the bar: bar-free strings
    that, joined by bars, give the value back, so that a value written as
    names joined by bars suppresses exactly those names. *)
Theorem isEventEnabled_iff_not_suppressed (env : gmap string string) (e : string) :
  let cfg := load env in
  (isEventEnabled cfg e = true <-> ~ In e (disabledCallbacks cfg))
  /\ match env !! "DISABLED_CALLBACKS" with
     | None | Some EmptyString =>
         disabledCallbacks cfg = [] /\ isEventEnabled cfg e = true
     | Some s =>
         disabledCallbacks cfg = split_on "|" s
         /\ join_with "|" (disabledCallbacks cfg) = s
         /\ Forall (fun w => has_char "|" w = false) (disabledCallbacks cfg)
         /\ (forall names,
               names <> [] ->
               Forall (fun w => has_char "|" w = false) names ->
               s = join_with "|" names ->
               disabledCallbacks cfg = names)
     end.
Proof.
  cbv zeta. split.
  - unfold isEventEnabled. rewrite <- includes_In.
    destruct (includes _ e); simpl; split; intros; congruence.
  - unfold isEventEnabled, load, getenv. cbn [disabledCallbacks].
    destruct (env !! "DISABLED_CALLBACKS") as [s|]; [|split; reflexivity].
    unfold parse_disabledCallbacks, truthy.
    destruct s as [|c s]; [split; reflexivity|].
    cbn [String.eqb negb].
    split; [reflexivity|]. split; [apply join_split_on|]. split.
    + apply List.Forall_forall. intros w Hw. now apply split_on_pieces in Hw.
    + intros names Hne Hall ->. now apply split_on_join.
Qed.

End EventFilter.

(** ** The webhook dispatcher *)

Section Webhook.
Import Utils.


(** The endpoint failed the delivery: no response, or a status outside
    200..299. *)
Definition delivery_failed (o : http_outcome) : bool :=
  match o with
  | NetworkError _ => true
  | HttpResponse st _ => negb ((200 <=? st) && (st <? 300))
  end.

(** A reaction that swallows whatever happens to the request: one log line
    (an error line carrying the reason on rejection) and a fulfilled
    promise at the end of the chain. *)
Definition swallows (r : reaction) : Prop :=
  forall p, exists v entry,
    r p = (Fulfilled v, [entry])
    /\ match p with
       | Rejected e => log_lvl entry = LvlError
                       /\ assoc_get "err" (log_fields entry) = error_to_js e
       | Fulfilled _ => log_lvl entry = LvlDebug
       end.

(** What holds of the loop between any two turns. *)
Definition loop_ok (st : loop) : Prop :=
  Forall (fun pr => (fst pr < next_id st)%nat /\ swallows (snd pr)) (inflight st)
  /\ unhandled st = [].

Lemma delivery_failed_rejects (o : http_outcome) :
  delivery_failed o = true -> exists e, axios_settle o = Rejected e.
Proof.
  destruct o as [e|st d]; simpl; intros H.
  - now exists e.
  - destruct ((200 <=? st) && (st <? 300)); [discriminate | eauto].
Qed.

Lemma triggerWebhook_returns (cfg : config) (u s d x : jsval) (st : loop) :
  fst (triggerWebhook cfg u s d x st) = JUndefined.
Proof. unfold triggerWebhook. destruct (enableWebHook cfg); reflexivity. Qed.

Lemma triggerWebhook_issued (cfg : config) (u s d x : jsval) (st : loop) :
  issued (snd (triggerWebhook cfg u s d x st)) =
  issued st ++
  (if enableWebHook cfg
   then [ {| req_method := "POST"; req_url := u;
             req_body := JObj [ ("dataType", d); ("data", x); ("sessionId", s) ];
             req_headers := [ ("x-api-key", globalApiKey cfg) ] |} ]
   else []).
Proof.
  unfold triggerWebhook. destruct (enableWebHook cfg); simpl; [reflexivity|].
  now rewrite List.app_nil_r.
Qed.

Lemma complete_issued (id : nat) (o : http_outcome) (st : loop) :
  issued (complete id o st) = issued st.
Proof.
  unfold complete. destruct (find_reaction id (inflight st)); [|reflexivity].
  destruct (r (axios_settle o)); reflexivity.
Qed.

Lemma attach_fresh (id : nat) (r : reaction) (l : list (nat * reaction)) :
  Forall (fun pr => (fst pr < id)%nat) l ->
  map (fun pr => if Nat.eqb (fst pr) id then (fst pr, after (snd pr) r) else pr) l = l.
Proof.
  induction 1 as [|pr l Hlt _ IH]; simpl; [reflexivity|].
  rewrite IH. destruct (Nat.eqb_spec (fst pr) id); [lia | reflexivity].
Qed.

Lemma attach_newest (id : nat) (r0 r : reaction) (l : list (nat * reaction)) :
  Forall (fun pr => (fst pr < id)%nat) l ->
  map (fun pr => if Nat.eqb (fst pr) id then (fst pr, after (snd pr) r) else pr)
      (l ++ [ (id, r0) ])
  = l ++ [ (id, after r0 r) ].
Proof.
  intros Hlt. rewrite List.map_app, attach_fresh by exact Hlt.
  simpl. now rewrite Nat.eqb_refl.
Qed.

(** The loop after an enabled call: the old pending requests, untouched,
    then the new one with [.then] and [.catch] chained on it. *)
Lemma triggerWebhook_inflight (cfg : config) (u s d x : jsval) (st : loop) :
  enableWebHook cfg = true ->
  Forall (fun pr => (fst pr < next_id st)%nat) (inflight st) ->
  exists r, swallows r
    /\ inflight (snd (triggerWebhook cfg u s d x st)) = inflight st ++ [ (next_id st, r) ]
    /\ next_id (snd (triggerWebhook cfg u s d x st)) = S (next_id st)
    /\ logs (snd (triggerWebhook cfg u s d x st)) = logs st
    /\ unhandled (snd (triggerWebhook cfg u s d x st)) = unhandled st.
Proof.
  intros Hen Hlt. unfold triggerWebhook. rewrite Hen.
  unfold axios_post, attach. cbn [fst snd inflight next_id logs unhandled].
  rewrite !attach_newest by exact Hlt.
  eexists. split; [|repeat split].
  intros [v|e]; do 2 eexists; (split; [reflexivity|]); simpl; auto.
Qed.

Lemma find_reaction_In (id : nat) (l : list (nat * reaction)) (r : reaction) :
  find_reaction id l = Some r -> In (id, r) l.
Proof.
  induction l as [|[i r'] l IH]; simpl; [discriminate|].
  destruct (Nat.eqb_spec i id); intros H.
  - injection H as ->. subst. now left.
  - right. now apply IH.
Qed.

Lemma find_reaction_pending (id : nat) (l : list (nat * reaction)) :
  In id (map fst l) -> exists r, find_reaction id l = Some r.
Proof.
  induction l as [|[i r'] l IH]; simpl; [tauto|].
  destruct (Nat.eqb_spec i id); eauto.
  intros [?|H]; [congruence | now apply IH].
Qed.

Lemma do_turn_ok (cfg : config) (t : turn) (st : loop) :
  loop_ok st -> loop_ok (do_turn cfg st t).
Proof.
  intros [Hin Hun]. destruct t as [u s d x|id o]; cbn [do_turn]; unfold loop_ok.
  - destruct (enableWebHook cfg) eqn:Hen.
    + assert (Hlt : Forall (fun pr => (fst pr < next_id st)%nat) (inflight st))
        by (eapply List.Forall_impl; [|exact Hin]; simpl; tauto).
      destruct (triggerWebhook_inflight cfg u s d x st Hen Hlt)
        as (r & Hr & -> & Hn & _ & Hu).
      split; [|congruence]. rewrite Hn.
      apply List.Forall_app. split.
      * eapply List.Forall_impl; [|exact Hin]. simpl. intros ? [? ?]. split; [lia|auto].
      * constructor; [|constructor]. simpl. split; [lia | exact Hr].
    + unfold triggerWebhook. rewrite Hen. simpl. now split.
  - unfold complete. destruct (find_reaction id (inflight st)) as [r|] eqn:Hf; [|now split].
    apply find_reaction_In in Hf.
    rewrite List.Forall_forall in Hin. destruct (Hin _ Hf) as [_ Hsw].
    cbn [snd] in Hsw.
    destruct (Hsw (axios_settle o)) as (v & entry & -> & _). simpl. split.
    + apply List.Forall_forall. intros pr Hpr.
      apply List.filter_In in Hpr. destruct Hpr as [Hpr _]. now apply Hin.
    + rewrite Hun. reflexivity.
Qed.

Lemma fold_ok (cfg : config) (turns : list turn) (st : loop) :
  loop_ok st -> loop_ok (fold_left (do_turn cfg) turns st).
Proof.
  revert st. induction turns as [|t turns IH]; simpl; intros st H; [exact H|].
  apply IH. now apply do_turn_ok.
Qed.

Lemma run_ok (cfg : config) (turns : list turn) : loop_ok (run cfg turns).
Proof. apply fold_ok. split; [constructor | reflexivity]. Qed.





Lemma filter_drops (id : nat) (l : list (nat * reaction)) :
  ~ In id (map fst (List.filter (fun pr => negb (Nat.eqb (fst pr) id)) l)).
Proof.
  intros H. apply List.in_map_iff in H. destruct H as (pr & Heq & Hin).
  apply List.filter_In in Hin. destruct Hin as [_ Hne].
  subst id. now rewrite Nat.eqb_refl in Hne.
Qed.

Lemma find_reaction_none (id : nat) (l : list (nat * reaction)) :
  ~ In id (map fst l) -> find_reaction id l = None.
Proof.
  induction l as [|[i r] l IH]; simpl; [reflexivity|].
  intros H. destruct (Nat.eqb_spec i id); [tauto|]. apply IH. tauto.
Qed.

(** C2: when the delivery of a pending request fails (no response, or a
    status outside 200..299), completing it writes one error line carrying
    the reason and changes nothing else but the list of pending requests:
    no further request is issued, no rejection is left unhandled, and the
    request is forgotten for good, so any later completion of it changes
    nothing.  The call itself has long returned [undefined]. *)
Theorem failed_delivery_is_logged_and_dropped
    (cfg : config) (turns : list turn) (id : nat) (o : http_outcome) :
  delivery_failed o = true ->
  In id (map fst (inflight (run cfg turns))) ->
  let st := run cfg turns in
  let st' := complete id o st in
  issued st' = issued st
  /\ (exists e entry,
        axios_settle o = Rejected e
        /\ logs st' = logs st ++ [entry]
        /\ log_lvl entry = LvlError
        /\ assoc_get "err" (log_fields entry) = error_to_js e)
  /\ unhandled st' = []
  /\ next_id st' = next_id st
  /\ ~ In id (map fst (inflight st'))
  /\ (forall o', complete id o' st' = st')
  /\ (forall u s d x st0, fst (triggerWebhook cfg u s d x st0) = JUndefined).
Proof.
  intros Hfail Hpend. cbv zeta.
  destruct (run_ok cfg turns) as [Hin Hun].
  destruct (find_reaction_pending _ _ Hpend) as [r Hf].
  destruct (delivery_failed_rejects o Hfail) as [e He].
  pose proof (find_reaction_In _ _ _ Hf) as Hr.
  rewrite List.Forall_forall in Hin. destruct (Hin _ Hr) as [_ Hsw]. cbn [snd] in Hsw.
  destruct (Hsw (axios_settle o)) as (v & entry & Hrun & Hentry).
  rewrite He in Hentry. destruct Hentry as [Hlvl Herr].
  assert (Hst : complete id o (run cfg turns) =
                {| issued := issued (run cfg turns);
                   inflight := List.filter (fun pr => negb (Nat.eqb (fst pr) id))
                                           (inflight (run cfg turns));
                   logs := logs (run cfg turns) ++ [entry];
                   unhandled := unhandled (run cfg turns) ++ [];
                   next_id := next_id (run cfg turns) |}).
  { unfold complete. rewrite Hf, Hrun. reflexivity. }
  rewrite Hst. cbn [issued logs unhandled inflight next_id].
  split; [reflexivity|]. split; [exists e, entry; auto|].
  split; [now rewrite Hun|]. split; [reflexivity|]. split; [apply filter_drops|]. split.
  - intros o'. unfold complete at 1. cbn [inflight].
    now rewrite (find_reaction_none id _ (filter_drops id _)).
  - intros. apply triggerWebhook_returns.
Qed.

Definition sample_cfg : config := load {[ "API_KEY" := "secret" ]}.

Definition sample_turns : list turn :=
  [ Trigger (JStr "http://hooks.example/in") (JStr "s1") (JStr "message")
            (JObj [ ("body", JStr "hi") ]) ].

Lemma failed_delivery_is_logged_and_dropped_witness :
  issued (complete 0 (HttpResponse 503 JNull) (run sample_cfg sample_turns))
  = issued (run sample_cfg sample_turns).
Proof.
  refine (proj1 (failed_delivery_is_logged_and_dropped
                   sample_cfg sample_turns 0 (HttpResponse 503 JNull)
                   _ _)).
  - reflexivity.
  - simpl. left. reflexivity.
Defined.

(** C3: a call with webhooks enabled returns [undefined] at once: its own
    request has been issued and is still pending, every request that was
    pending before is still pending, and no completion has been consumed
    (nothing was logged). *)
Theorem triggerWebhook_does_not_wait
    (cfg : config) (turns : list turn) (u s d x : jsval) :
  enableWebHook cfg = true ->
  let st := run cfg turns in
  let r := triggerWebhook cfg u s d x st in
  fst r = JUndefined
  /\ map fst (inflight (snd r)) = map fst (inflight st) ++ [ next_id st ]
  /\ length (issued (snd r)) = S (length (issued st))
  /\ logs (snd r) = logs st.
Proof.
  intros Hen. cbv zeta. destruct (run_ok cfg turns) as [Hin _].
  assert (Hlt : Forall (fun pr => (fst pr < next_id (run cfg turns))%nat)
                       (inflight (run cfg turns)))
    by (eapply List.Forall_impl; [|exact Hin]; simpl; tauto).
  destruct (triggerWebhook_inflight cfg u s d x _ Hen Hlt) as (r & _ & Hi & _ & Hl & _).
  split; [apply triggerWebhook_returns|]. split; [|split].
  - rewrite Hi, List.map_app. reflexivity.
  - rewrite triggerWebhook_issued, Hen, List.length_app. simpl. lia.
  - exact Hl.
Qed.

Lemma triggerWebhook_does_not_wait_witness :
  map fst (inflight (run sample_cfg
                         (sample_turns ++
                          [ Trigger (JStr "http://hooks.example/in") (JStr "s1")
                                    (JStr "ready") JUndefined ])))
  = [ 0%nat; 1%nat ].
Proof.
  pose proof (triggerWebhook_does_not_wait sample_cfg sample_turns
                (JStr "http://hooks.example/in") (JStr "s1") (JStr "ready") JUndefined
                eq_refl) as H.
  cbv zeta in H. destruct H as (_ & H & _).
  unfold run. rewrite List.fold_left_app. exact H.
Defined.

End Webhook.

(** ** The channel controller *)

Section ChannelHandlers.
Import Channel.

(** [res] after one [sendErrorResponse(res, status, message)] on a fresh
    response. *)
Definition error_response (status : Z) (message : string) : response :=
  {| statusCode := status;
     sent := [ (status, JObj [ ("success", JBool false); ("error", JStr message) ]) ] |}.

(** [req.body] can be destructured. *)
Definition has_body (req : request) : bool :=
  match body req with JUndefined | JNull => false | _ => true end.

Ltac handler_cases Hin :=
  unfold handlers in Hin; cbn [In] in Hin;
  repeat (destruct Hin as [Hin|Hin]; [injection Hin as <- <- |]);
  [ .. | destruct Hin ].

Ltac run_validation Hb Hs Hc :=
  match goal with
  | |- serve ?h _ _ = _ => unfold serve, h
  end;
  unfold try_catch, bind, destructure, sessions_get, getChatById, driver_await;
  unfold has_body in Hb;
  match type of Hb with
  | context [body ?req] => destruct (body req); try discriminate Hb
  end;
  cbn [ret]; rewrite Hs; cbn beta iota; rewrite Hc.

Lemma validation_rejects_missing_chat
    (n : string) (h : driver -> request -> M unit) (d : driver) (req : request)
    (cl : client) (chat : jsval) :
  In (n, h) handlers ->
  has_body req = true ->
  sessions d !! params_sessionId req = Some cl ->
  client_getChatById cl (own_property (body req) "chatId") = Ok chat ->
  truthy chat = false ->
  serve h d req =
    (Ok tt, {| res := error_response 404 "Channel not Found";
               calls := [ GetChatById (own_property (body req) "chatId") ] |}).
Proof.
  intros Hin Hb Hs Hc Hf.
  handler_cases Hin; run_validation Hb Hs Hc; cbn [negb]; rewrite Hf; reflexivity.
Qed.

Lemma validation_rejects_non_channel
    (n : string) (h : driver -> request -> M unit) (d : driver) (req : request)
    (cl : client) (chat : jsval) :
  In (n, h) handlers ->
  has_body req = true ->
  sessions d !! params_sessionId req = Some cl ->
  client_getChatById cl (own_property (body req) "chatId") = Ok chat ->
  truthy chat = true ->
  truthy (own_property chat "isChannel") = false ->
  serve h d req =
    (Ok tt, {| res := error_response 400 "The chat is not a channel";
               calls := [ GetChatById (own_property (body req) "chatId") ] |}).
Proof.
  intros Hin Hb Hs Hc Ht Hf.
  handler_cases Hin; run_validation Hb Hs Hc; cbn [negb];
    rewrite Ht; cbn [negb]; rewrite Hf; reflexivity.
Qed.

(** C8: every exported channel handler validates before acting.  Once
    the chat lookup has returned, a falsy chat is answered with 404
    ['Channel not Found'] and a chat that is not a channel with 400
    ['The chat is not a channel']; in both cases the lookup is the only
    Driver call the handler has made. *)
Theorem channel_handlers_validate_first
    (n : string) (h : driver -> request -> M unit) (d : driver) (req : request)
    (cl : client) (chat : jsval) :
  In (n, h) handlers ->
  has_body req = true ->
  sessions d !! params_sessionId req = Some cl ->
  client_getChatById cl (own_property (body req) "chatId") = Ok chat ->
  (truthy chat = false ->
   serve h d req =
     (Ok tt, {| res := error_response 404 "Channel not Found";
                calls := [ GetChatById (own_property (body req) "chatId") ] |}))
  /\ (truthy chat = true ->
      truthy (own_property chat "isChannel") = false ->
      serve h d req =
        (Ok tt, {| res := error_response 400 "The chat is not a channel";
                   calls := [ GetChatById (own_property (body req) "chatId") ] |})).
Proof.
  intros Hin Hb Hs Hc. split.
  - now apply (validation_rejects_missing_chat n h d req cl chat).
  - now apply (validation_rejects_non_channel n h d req cl chat).
Qed.

(** A client whose every lookup finds the same chat and whose chat
    operations all succeed. *)
Definition steady_client (chat : jsval) : client :=
  {| client_getChatById := fun _ => Ok chat;
     chat_method := fun _ _ _ => Ok (JBool true) |}.

Definition one_session (cl : client) : driver :=
  {| sessions := {[ "s1" := cl ]};
     MessageMedia_fromUrl := fun _ _ => Ok (JObj []) |}.

Definition mute_request : request :=
  {| params_sessionId := "s1";
     body := JObj [ ("chatId", JStr "120363000000000000@newsletter") ] |}.

Lemma channel_handlers_validate_first_witness :
  serve mute (one_session (steady_client JNull)) mute_request =
    (Ok tt, {| res := error_response 404 "Channel not Found";
               calls := [ GetChatById (JStr "120363000000000000@newsletter") ] |}).
Proof.
  refine (proj1 (channel_handlers_validate_first
                   "mute" mute (one_session (steady_client JNull)) mute_request
                   (steady_client JNull) JNull _ _ _ _) _).
  - simpl. do 4 right. left. reflexivity.
  - reflexivity.
  - reflexivity.
  - reflexivity.
  - reflexivity.
Defined.

(** *** What becomes of a failure *)

(** [res] after one [sendErrorResponse(res, status, message)] on a fresh
    response, whatever value [message] is. *)
Definition error_reply (status : Z) (message : jsval) : response :=
  {| statusCode := status;
     sent := [ (status, JObj [ ("success", JBool false); ("error", message) ]) ] |}.



(** *** What of a thrown error can reach the caller *)























Lemma lookup_failure_is_500
    (n : string) (h : driver -> request -> M unit) (d : driver) (req : request)
    (cl : client) (e : js_error) :
  In (n, h) handlers ->
  has_body req = true ->
  sessions d !! params_sessionId req = Some cl ->
  client_getChatById cl (own_property (body req) "chatId") = Throw e ->
  serve h d req =
    (Ok tt, {| res := error_response 500 (err_message e);
               calls := [ GetChatById (own_property (body req) "chatId") ] |}).
Proof.
  intros Hin Hb Hs Hc.
  handler_cases Hin; run_validation Hb Hs Hc; reflexivity.
Qed.




(** *** Every request is settled *)


Section Settling.
Variables (d : driver) (req : request).





















End Settling.





End ChannelHandlers.

(** ** Waiting for a nested object *)

Section Waiting.
Import Utils.

Definition timeout_line : log_entry :=
  {| log_lvl := LvlError; log_fields := [];
     log_msg := "Timed out waiting for nested object" |}.

(** The value at a path given segment by segment: each segment is read
    from the value reached so far, and below a falsy value everything is
    undefined. *)
Fixpoint path_value (get : property_read) (obj : jsval) (keys : list string) : read :=
  match keys with
  | [] => Value obj
  | key :: rest =>
      if truthy obj then
        match get obj key with
        | Value v => path_value get v rest
        | Raises e => Raises e
        end
      else path_value get JUndefined rest
  end.

(** Whether poll [j] finds a truthy value at the path. *)
Definition finds (get : property_read) (w : world) (keys : list string) (j : nat) : bool :=
  match path_value get (root_at w j) keys with
  | Value v => truthy v
  | Raises _ => false
  end.

Lemma walk_raised (get : property_read) (keys : list string) (e : js_error) :
  fold_left (fun acc key =>
               match acc with
               | Value obj => if truthy obj then get obj key else Value JUndefined
               | Raises e' => Raises e'
               end) keys (Raises e) = Raises e.
Proof. induction keys as [|k keys IH]; [reflexivity | exact IH]. Qed.

Lemma walk_path_value (get : property_read) (keys : list string) (obj : jsval) :
  fold_left (fun acc key =>
               match acc with
               | Value o => if truthy o then get o key else Value JUndefined
               | Raises e => Raises e
               end) keys (Value obj) = path_value get obj keys.
Proof.
  revert obj. induction keys as [|k keys IH]; intros obj; [reflexivity|].
  cbn [fold_left path_value]. destruct (truthy obj); [|apply IH].
  destruct (get obj k) as [v|e]; [apply IH | apply walk_raised].
Qed.

(** The reduce over the split path reads the segments in order. *)
Lemma nested_path_value (get : property_read) (rootObj : jsval) (keys : list string) :
  keys <> [] ->
  Forall (fun key => has_char "." key = false) keys ->
  nested get rootObj (join_with "." keys) = path_value get rootObj keys.
Proof.
  intros Hne Hall. unfold nested. rewrite split_on_join by assumption.
  apply walk_path_value.
Qed.

(** Reading an own data property never throws. *)
Lemma own_read_returns (obj : jsval) (keys : list string) (e : js_error) :
  path_value own_read obj keys <> Raises e.
Proof.
  revert obj. induction keys as [|k keys IH]; intros obj; [discriminate|].
  cbn [path_value]. destruct (truthy obj); apply IH.
Qed.

(** [elapsed > limit] as the language has it for a number of any kind:
    never true of [Infinity] or [NaN], always of [-Infinity]. *)
Definition past (limit : jsnum) (elapsed : Z) : Prop :=
  match limit with
  | Finite z => z < elapsed
  | NegInfinity => True
  | PosInfinity | NaN => False
  end.

Lemma exceeds_past (elapsed : Z) (limit : jsnum) :
  (exceeds elapsed limit = true <-> past limit elapsed)
  /\ (exceeds elapsed limit = false <-> ~ past limit elapsed).
Proof.
  destruct limit as [z| | |]; cbn; try (intuition congruence).
  split; [apply Z.ltb_lt|]. rewrite Z.ltb_ge. lia.
Qed.

(** A poll after which the loop goes on: the read returned a falsy value
    and the deadline has not passed. *)
Definition goes_on (get : property_read) (w : world) (nestedPath : string)
    (start : Z) (maxWaitTime : jsnum) (j : nat) : Prop :=
  exists v, nested get (root_at w j) nestedPath = Value v
            /\ truthy v = false
            /\ exceeds (clock w j - start) maxWaitTime = false.

(** What the last poll did. *)
Definition ends_with (get : property_read) (w : world) (nestedPath : string)
    (start : Z) (maxWaitTime : jsnum) (r : settled) : Prop :=
  match nested get (root_at w (poll r)) nestedPath with
  | Raises e =>
      outcome r = match poll r with
                  | O => Settled (Rejected e)
                  | S _ => Uncaught e
                  end
      /\ wrote r = []
  | Value v =>
      if truthy v then outcome r = Settled (Fulfilled JUndefined) /\ wrote r = []
      else exceeds (clock w (poll r) - start) maxWaitTime = true
           /\ outcome r = Settled (Rejected (new_Error "Timeout waiting for nested object"))
           /\ wrote r = [ timeout_line ]
  end.

Lemma checkObject_first (get : property_read) (w : world) (nestedPath : string)
    (start : Z) (maxWaitTime interval : jsnum) (fuel k : nat) (r : settled) :
  checkObject get w nestedPath start maxWaitTime interval fuel k = Some r ->
  (k <= poll r)%nat
  /\ (forall j, (k <= j < poll r)%nat -> goes_on get w nestedPath start maxWaitTime j)
  /\ ends_with get w nestedPath start maxWaitTime r
  /\ timers r = List.repeat interval (poll r).
Proof.
  revert k. induction fuel as [|fuel IH]; intros k; [discriminate|].
  cbn [checkObject]. unfold ends_with.
  destruct (nested get (root_at w k) nestedPath) as [v|e] eqn:Hn.
  - destruct (truthy v) eqn:Ht.
    + intros [= <-]. cbn [poll outcome wrote timers]. rewrite Hn, Ht.
      repeat split; try (intros; lia).
    + destruct (exceeds (clock w k - start) maxWaitTime) eqn:He.
      * intros [= <-]. cbn [poll outcome wrote timers]. rewrite Hn, Ht, He.
        repeat split; try (intros; lia).
      * intros H. apply IH in H. destruct H as (Hle & Hbefore & Hend & Htm).
        split; [lia|]. split; [|split; assumption].
        intros j Hj. destruct (Nat.eq_dec j k) as [->|Hne].
        -- exists v. auto.
        -- apply Hbefore. lia.
  - intros [= <-]. cbn [poll outcome wrote timers]. rewrite Hn.
    repeat split; try (intros; lia).
Qed.

Lemma checkObject_poll_bound (get : property_read) (w : world) (nestedPath : string)
    (start : Z) (maxWaitTime interval : jsnum) (fuel k : nat) (r : settled) :
  checkObject get w nestedPath start maxWaitTime interval fuel k = Some r ->
  (poll r < k + fuel)%nat.
Proof.
  revert k. induction fuel as [|fuel IH]; intros k; [discriminate|].
  cbn [checkObject].
  destruct (nested get (root_at w k) nestedPath) as [v|e];
    [|intros [= <-]; cbn; lia].
  destruct (truthy v); [intros [= <-]; cbn; lia|].
  destruct (exceeds (clock w k - start) maxWaitTime); [intros [= <-]; cbn; lia|].
  intros H. apply IH in H. lia.
Qed.

Lemma checkObject_more_fuel (get : property_read) (w : world) (nestedPath : string)
    (start : Z) (maxWaitTime interval : jsnum) (fuel fuel' k : nat) (r : settled) :
  checkObject get w nestedPath start maxWaitTime interval fuel k = Some r ->
  (fuel <= fuel')%nat ->
  checkObject get w nestedPath start maxWaitTime interval fuel' k = Some r.
Proof.
  revert fuel' k. induction fuel as [|fuel IH]; intros fuel' k; [discriminate|].
  intros H Hle. destruct fuel' as [|fuel']; [lia|].
  cbn [checkObject] in *.
  destruct (nested get (root_at w k) nestedPath) as [v|e]; [|exact H].
  destruct (truthy v); [exact H|].
  destruct (exceeds (clock w k - start) maxWaitTime); [exact H|].
  apply IH; [exact H | lia].
Qed.

(** Once some poll is past the deadline, the loop has stopped by then. *)
Lemma checkObject_enough (get : property_read) (w : world) (nestedPath : string)
    (start : Z) (maxWaitTime interval : jsnum) (K : nat) :
  exceeds (clock w K - start) maxWaitTime = true ->
  forall fuel k, (k <= K)%nat -> (K - k < fuel)%nat ->
    exists r, checkObject get w nestedPath start maxWaitTime interval fuel k = Some r.
Proof.
  intros HK. induction fuel as [|fuel IH]; intros k Hk Hf; [lia|].
  cbn [checkObject].
  destruct (nested get (root_at w k) nestedPath) as [v|e]; [|eauto].
  destruct (truthy v); [eauto|].
  destruct (exceeds (clock w k - start) maxWaitTime) eqn:He; [eauto|].
  assert (k <> K) by congruence.
  apply IH; lia.
Qed.

(** The call never returns a settled promise when the deadline is
    [Infinity] and the value never appears. *)
Lemma checkObject_pending (get : property_read) (w : world) (nestedPath : string)
    (start : Z) (interval : jsnum) :
  (forall j, exists v, nested get (root_at w j) nestedPath = Value v /\ truthy v = false) ->
  forall fuel k,
    checkObject get w nestedPath start PosInfinity interval fuel k = None.
Proof.
  intros Hnever. induction fuel as [|fuel IH]; intros k; [reflexivity|].
  cbn [checkObject]. destruct (Hnever k) as (v & -> & ->). apply IH.
Qed.

(** A page that never appears, under a clock that gains 100 ms per poll. *)
Definition never_ready : world :=
  {| root_at := fun _ => JObj [ ("pupBrowser", JObj []) ];
     clock := fun k => 1000 + 100 * Z.of_nat k |}.

(** C7, as stated, fails: with [maxWaitTime] [Infinity] and a property
    that never appears, no number of polls settles the promise, although
    the clock moves on; it stays pending forever. *)
Lemma waitForNestedObject_pending_forever :
  ~ exists fuel r,
      waitForNestedObject own_read never_ready 1000 "pupPage"
                          (Some PosInfinity) None fuel = Some r.
Proof.
  intros (fuel & r & H). unfold waitForNestedObject in H.
  rewrite checkObject_pending in H; [discriminate|].
  intros j. exists JUndefined. split; reflexivity.
Qed.

(** C7, amended: when reading the path does not throw and some poll [K]
    runs more than [maxWaitTime] after the call (which no poll can when
    [maxWaitTime] is [Infinity] or [NaN]), the promise settles, at poll
    [K] at the latest.  It settles at the first poll that finds the value
    at the dotted path truthy or runs past the deadline: it resolves if
    the value is there and otherwise rejects with
    [Error('Timeout waiting for nested object')], after logging the
    timeout.  The path is given by its segments [keys]. *)
Theorem waitForNestedObject_settles
    (get : property_read) (w : world) (start : Z) (nestedPath : string)
    (keys : list string) (maxWaitTime interval : option jsnum) (K : nat) :
  keys <> [] ->
  Forall (fun key => has_char "." key = false) keys ->
  nestedPath = join_with "." keys ->
  (forall j e, (j <= K)%nat -> path_value get (root_at w j) keys <> Raises e) ->
  past (default (Finite 10000) maxWaitTime) (clock w K - start) ->
  let limit := default (Finite 10000) maxWaitTime in
  exists r,
    (forall fuel, (K < fuel)%nat ->
       waitForNestedObject get w start nestedPath maxWaitTime interval fuel = Some r)
    /\ (poll r <= K)%nat
    /\ (forall j, (j < poll r)%nat ->
          finds get w keys j = false /\ ~ past limit (clock w j - start))
    /\ ((finds get w keys (poll r) = true
         /\ outcome r = Settled (Fulfilled JUndefined) /\ wrote r = [])
        \/ (finds get w keys (poll r) = false
            /\ past limit (clock w (poll r) - start)
            /\ outcome r = Settled (Rejected (new_Error "Timeout waiting for nested object"))
            /\ wrote r = [ timeout_line ])).
Proof.
  intros Hne Hdots -> Hreads HK. cbv zeta. unfold waitForNestedObject.
  set (limit := default (Finite 10000) maxWaitTime) in *.
  set (iv := default (Finite 100) interval).
  apply (proj1 (exceeds_past _ limit)) in HK.
  destruct (checkObject_enough get w (join_with "." keys) start limit iv K HK
              (S K) 0%nat ltac:(lia) ltac:(lia)) as [r Hr].
  exists r.
  destruct (checkObject_first _ _ _ _ _ _ _ _ _ Hr) as (_ & Hbefore & Hend & _).
  assert (HpK : (poll r <= K)%nat).
  { destruct (Nat.le_gt_cases (poll r) K) as [Hle|Hgt]; [exact Hle|].
    destruct (Hbefore K ltac:(lia)) as (v & _ & _ & Hno). congruence. }
  split; [|split; [exact HpK|split]].
  - intros fuel Hf. apply (checkObject_more_fuel _ _ _ _ _ _ (S K)); [exact Hr | lia].
  - intros j Hj. destruct (Hbefore j ltac:(lia)) as (v & Hv & Ht & He).
    rewrite nested_path_value in Hv by assumption.
    apply (proj2 (exceeds_past _ limit)) in He.
    unfold finds. rewrite Hv. auto.
  - unfold ends_with in Hend. rewrite nested_path_value in Hend by assumption.
    unfold finds.
    destruct (path_value get (root_at w (poll r)) keys) as [v|e] eqn:Hv.
    + destruct (truthy v); [left; tauto | right].
      destruct Hend as (He & Ho & Hw). apply (proj1 (exceeds_past _ limit)) in He. tauto.
    + exfalso. exact (Hreads _ e HpK Hv).
Qed.

(** The page appears at the fourth poll. *)
Definition ready_at_3 : world :=
  {| root_at := fun k => if (k <? 3)%nat then JObj []
                         else JObj [ ("pupPage", JObj [ ("mainFrame", JBool true) ]) ];
     clock := fun k => 1000 + 100 * Z.of_nat k |}.

Lemma waitForNestedObject_settles_witness :
  exists r,
    (forall fuel, (200 < fuel)%nat ->
       waitForNestedObject own_read ready_at_3 1000 "pupPage.mainFrame" None None fuel
       = Some r)
    /\ (poll r <= 200)%nat.
Proof.
  destruct (waitForNestedObject_settles own_read ready_at_3 1000 "pupPage.mainFrame"
              [ "pupPage"; "mainFrame" ] None None 200
              ltac:(discriminate) ltac:(repeat constructor) eq_refl) as (r & H1 & H2 & _).
  - intros j e _. apply own_read_returns.
  - cbn. lia.
  - exists r. split; assumption.
Defined.

End Waiting.

(** ** Chunked base64 decoding *)

Section Base64.
Import Utils.

Lemma all_padding_sextets (s : string) : all_padding s = true -> sextets s = [].
Proof.
  destruct s as [|c r]; [reflexivity|]. simpl.
  destruct (Ascii.eqb c "="); [reflexivity | discriminate].
Qed.

Lemma all_padding_drop (n : nat) (s : string) :
  all_padding s = true -> all_padding (drop n s) = true.
Proof.
  revert s. induction n as [|n IH]; intros [|c r]; simpl; auto.
  intros H. apply andb_prop in H. destruct H as [_ H]. now apply IH.
Qed.

Lemma all_padding_is_base64 (s : string) : all_padding s = true -> is_base64 s = true.
Proof.
  destruct s as [|c r]; [reflexivity|]. simpl.
  destruct (Ascii.eqb c "="); [auto | discriminate].
Qed.

Lemma is_base64_drop (n : nat) (s : string) :
  is_base64 s = true -> is_base64 (drop n s) = true.
Proof.
  revert s. induction n as [|n IH]; intros [|c r]; simpl; auto.
  destruct (Ascii.eqb c "=").
  - intros H. apply all_padding_is_base64. now apply all_padding_drop.
  - destruct (unbase64 c); [apply IH | discriminate].
Qed.

Lemma drop_drop (i n : nat) (s : string) : drop (i + n) s = drop n (drop i s).
Proof.
  revert s. induction i as [|i IH]; intros s; [reflexivity|].
  destruct s as [|c r]; simpl; [now destruct n | apply IH].
Qed.

Lemma drop_all (i : nat) (s : string) : (String.length s <= i)%nat -> drop i s = EmptyString.
Proof.
  revert s. induction i as [|i IH]; intros [|c r]; simpl; intros H;
    try reflexivity; try lia.
  apply IH. lia.
Qed.

(** Cutting a base64 string anywhere splits its sextets, and either the
    first part is all sextets or nothing is left to decode after it. *)
Lemma sextets_cut (n : nat) (s : string) :
  is_base64 s = true ->
  sextets s = sextets (take n s) ++ sextets (drop n s)
  /\ (length (sextets (take n s)) = n \/ sextets (drop n s) = []).
Proof.
  revert s. induction n as [|n IH]; intros s Hs.
  - destruct s; simpl; auto.
  - destruct s as [|c r]; [simpl; auto|].
    simpl in Hs |- *. destruct (Ascii.eqb c "=").
    + rewrite (all_padding_sextets (drop n r)) by now apply all_padding_drop.
      auto.
    + destruct (unbase64 c) as [v|]; [|discriminate].
      destruct (IH r Hs) as [Happ Hor]. split.
      * simpl. now f_equal.
      * destruct Hor as [Hlen|Hnil]; [left; simpl; now f_equal | now right].
Qed.

(** Whole groups of four sextets decode on their own. *)
Lemma pack_app (q : nat) (a b : list Z) :
  length a = (4 * q)%nat -> pack (a ++ b) = pack a ++ pack b.
Proof.
  revert a. induction q as [|q IH]; intros a Hlen.
  - destruct a; [reflexivity | simpl in Hlen; lia].
  - destruct a as [|x1 [|x2 [|x3 [|x4 a]]]]; simpl in Hlen; try lia.
    change (pack ((x1 :: x2 :: x3 :: x4 :: a) ++ b))
      with (byte1 x1 x2 :: byte2 x2 x3 :: byte3 x3 x4 :: pack (a ++ b)).
    change (pack (x1 :: x2 :: x3 :: x4 :: a))
      with (byte1 x1 x2 :: byte2 x2 x3 :: byte3 x3 x4 :: pack a).
    rewrite IH by lia. reflexivity.
Qed.

(** Decoding a chunk of a multiple of four characters and the rest
    separately gives the bytes of the whole. *)
Lemma Buffer_from_base64_cut (q : nat) (s : string) :
  is_base64 s = true ->
  Buffer_from_base64 s =
  Buffer_from_base64 (take (4 * q) s) ++ Buffer_from_base64 (drop (4 * q) s).
Proof.
  intros Hs. unfold Buffer_from_base64.
  destruct (sextets_cut (4 * q) s Hs) as [Happ [Hlen|Hnil]]; rewrite Happ.
  - now apply pack_app with (q := q).
  - rewrite Hnil, !List.app_nil_r. reflexivity.
Qed.

Lemma decodeBase64_from_concat (s : string) (i : nat) :
  is_base64 (drop i s) = true ->
  List.concat (decodeBase64_from s i) = Buffer_from_base64 (drop i s).
Proof.
  funelim (decodeBase64_from s i); intros Hs.
  - cbn [List.concat]. unfold slice.
    replace (i + chunkSize - i)%nat with chunkSize by lia.
    rewrite H by (rewrite drop_drop; now apply is_base64_drop).
    rewrite drop_drop. symmetry.
    apply (Buffer_from_base64_cut 256 (drop i base64String) Hs).
  - rewrite drop_all by lia. reflexivity.
Qed.

(** C9: for a base64 string, the Buffers yielded by [decodeBase64], put
    end to end, are the bytes of [Buffer.from(s, 'base64')]; the chunk
    size is a multiple of four, so every chunk but the last is whole
    groups of four sextets. *)
Theorem decodeBase64_concat (s : string) :
  is_base64 s = true ->
  List.concat (decodeBase64 s) = Buffer_from_base64 s.
Proof.
  intros Hs. unfold decodeBase64. now apply decodeBase64_from_concat.
Qed.

(** [n] copies of [s]. *)
Fixpoint repeat_string (n : nat) (s : string) : string :=
  match n with
  | O => EmptyString
  | S m => String.append s (repeat_string m s)
  end.

(** 257 groups and a padded tail: 1032 characters, two chunks. *)
Definition two_chunks : string := String.append (repeat_string 257 "QUJD") "RQ==".

Lemma decodeBase64_concat_witness :
  List.concat (decodeBase64 two_chunks) = Buffer_from_base64 two_chunks.
Proof.
  apply decodeBase64_concat. vm_compute. reflexivity.
Defined.

(** Outside base64 strings the equality can fail: Node skips a space, so
    a leading space shifts every group across the chunk boundary. *)
Example decodeBase64_skipped_character :
  let s := String.append " " two_chunks in
  is_base64 s = false
  /\ List.concat (decodeBase64 s) <> Buffer_from_base64 s.
Proof.
  cbv zeta. split; [reflexivity|].
  intros H. apply (f_equal (fun l => nth 770 l 0)) in H.
  vm_compute in H. discriminate H.
Qed.

End Base64.

(** ** More on the webhook dispatcher *)

Section WebhookAccounting.
Import Utils.

(** Pending requests carry distinct ids, all below the next one, and every
    request issued so far is either pending or has left one log line. *)
Definition accounted (st : loop) : Prop :=
  loop_ok st
  /\ List.NoDup (map fst (inflight st))
  /\ length (issued st) = (length (inflight st) + length (logs st))%nat.

Lemma filter_other_ids (id : nat) (l : list (nat * reaction)) :
  ~ In id (map fst l) ->
  List.filter (fun pr => negb (Nat.eqb (fst pr) id)) l = l.
Proof.
  induction l as [|[i r] l IH]; simpl; [reflexivity|].
  intros H. destruct (Nat.eqb_spec i id); [tauto|]. simpl. f_equal. apply IH. tauto.
Qed.

Lemma filter_one_id (id : nat) (l : list (nat * reaction)) :
  List.NoDup (map fst l) -> In id (map fst l) ->
  S (length (List.filter (fun pr => negb (Nat.eqb (fst pr) id)) l)) = length l.
Proof.
  induction l as [|[i r] l IH]; simpl; [tauto|].
  intros Hnd Hin. apply List.NoDup_cons_iff in Hnd. destruct Hnd as [Hni Hnd].
  destruct (Nat.eqb_spec i id) as [->|Hne]; simpl.
  - now rewrite filter_other_ids.
  - f_equal. apply IH; [assumption|]. destruct Hin; [contradiction | assumption].
Qed.

Lemma filter_keeps_NoDup (id : nat) (l : list (nat * reaction)) :
  List.NoDup (map fst l) ->
  List.NoDup (map fst (List.filter (fun pr => negb (Nat.eqb (fst pr) id)) l)).
Proof.
  induction l as [|[i r] l IH]; simpl; [auto|].
  intros Hnd. apply List.NoDup_cons_iff in Hnd. destruct Hnd as [Hni Hnd].
  destruct (Nat.eqb_spec i id); simpl; [now apply IH|].
  constructor; [|now apply IH].
  intros Hin. apply Hni. apply List.in_map_iff in Hin.
  destruct Hin as (pr & Hfst & Hpr). apply List.filter_In in Hpr.
  apply List.in_map_iff. exists pr. tauto.
Qed.

Lemma find_reaction_In_fst (id : nat) (l : list (nat * reaction)) (r : reaction) :
  find_reaction id l = Some r -> In id (map fst l).
Proof.
  intros H. apply find_reaction_In in H. apply List.in_map_iff. now exists (id, r).
Qed.

Lemma do_turn_accounted (cfg : config) (t : turn) (st : loop) :
  accounted st -> accounted (do_turn cfg st t).
Proof.
  intros (Hok & Hnd & Hlen).
  split; [now apply do_turn_ok|].
  destruct Hok as [Hin Hun]. destruct t as [u s d x|id o]; cbn [do_turn].
  - destruct (enableWebHook cfg) eqn:Hen.
    + assert (Hlt : Forall (fun pr => (fst pr < next_id st)%nat) (inflight st))
        by (eapply List.Forall_impl; [|exact Hin]; simpl; tauto).
      destruct (triggerWebhook_inflight cfg u s d x st Hen Hlt)
        as (r & _ & Hi & _ & Hl & _).
      rewrite Hi, Hl, triggerWebhook_issued, Hen. split.
      * rewrite List.map_app. simpl. apply List.NoDup_app; [exact Hnd | |].
        { repeat constructor. simpl. tauto. }
        intros a Ha [<-|[]]. apply List.in_map_iff in Ha.
        destruct Ha as (pr & Hfst & Hpr). rewrite List.Forall_forall in Hlt.
        specialize (Hlt pr Hpr). lia.
      * rewrite !List.length_app. simpl. lia.
    + unfold triggerWebhook. rewrite Hen. simpl. now split.
  - unfold complete. destruct (find_reaction id (inflight st)) as [r|] eqn:Hf; [|now split].
    pose proof (find_reaction_In_fst _ _ _ Hf) as Hid.
    apply find_reaction_In in Hf.
    rewrite List.Forall_forall in Hin. destruct (Hin _ Hf) as [_ Hsw]. cbn [snd] in Hsw.
    destruct (Hsw (axios_settle o)) as (v & entry & -> & _).
    cbn [inflight issued logs]. split; [now apply filter_keeps_NoDup|].
    rewrite List.length_app. simpl.
    pose proof (filter_one_id id (inflight st) Hnd Hid). lia.
Qed.

(** X1: however dispatches and completions interleave, every request
    issued so far is either still pending or has produced exactly one log
    line: a delivery is never logged twice and never lost from the
    books. *)
Theorem webhook_deliveries_accounted (cfg : config) (turns : list turn) :
  let st := run cfg turns in
  length (issued st) = (length (inflight st) + length (logs st))%nat
  /\ List.NoDup (map fst (inflight st))
  /\ Forall (fun id => (id < next_id st)%nat) (map fst (inflight st)).
Proof.
  cbv zeta. unfold run.
  assert (H : accounted (fold_left (do_turn cfg) turns loop_init)).
  { generalize loop_init, (conj (conj (List.Forall_nil _) eq_refl)
                               (conj (List.NoDup_nil nat) eq_refl)
                           : accounted loop_init).
    induction turns as [|t turns IH]; intros st Hst; [exact Hst|].
    cbn [fold_left]. apply IH. now apply do_turn_accounted. }
  destruct H as ([Hin _] & Hnd & Hlen). repeat split; try assumption.
  apply List.Forall_map. eapply List.Forall_impl; [|exact Hin]. simpl. tauto.
Qed.

(** What a [Trigger] turn sends when webhooks are enabled. *)
Definition dispatched (t : turn) : list (jsval * jsval) :=
  match t with
  | Trigger u s d x => [ (u, JObj [ ("dataType", d); ("data", x); ("sessionId", s) ]) ]
  | Complete _ _ => []
  end.

Lemma issued_in_order (cfg : config) (turns : list turn) (st : loop) :
  enableWebHook cfg = true ->
  map (fun r => (req_url r, req_body r)) (issued (fold_left (do_turn cfg) turns st))
  = map (fun r => (req_url r, req_body r)) (issued st) ++ flat_map dispatched turns.
Proof.
  intros Hen. revert st. induction turns as [|t turns IH]; intros st.
  - simpl. now rewrite List.app_nil_r.
  - cbn [fold_left flat_map]. rewrite IH. destruct t as [u s d x|id o]; cbn [do_turn].
    + rewrite triggerWebhook_issued, Hen, List.map_app, <- List.app_assoc. reflexivity.
    + rewrite complete_issued. reflexivity.
Qed.

(** X2: with webhooks enabled, requests leave in the order the events
    were handed to [triggerWebhook], one per event, whatever completions
    happen in between. *)
Theorem webhook_requests_in_dispatch_order (cfg : config) (turns : list turn) :
  enableWebHook cfg = true ->
  map (fun r => (req_url r, req_body r)) (issued (run cfg turns))
  = flat_map dispatched turns.
Proof.
  intros Hen. unfold run. now rewrite issued_in_order.
Qed.

Lemma webhook_requests_in_dispatch_order_witness :
  map (fun r => (req_url r, req_body r))
      (issued (run sample_cfg
                   (sample_turns ++
                    [ Complete 0 (HttpResponse 200 JNull);
                      Trigger (JStr "http://hooks.example/in") (JStr "s1")
                              (JStr "ready") JUndefined ])))
  = flat_map dispatched
      (sample_turns ++
       [ Complete 0 (HttpResponse 200 JNull);
         Trigger (JStr "http://hooks.example/in") (JStr "s1") (JStr "ready") JUndefined ]).
Proof.
  apply webhook_requests_in_dispatch_order. reflexivity.
Defined.

Lemma find_reaction_newest (id : nat) (r : reaction) (l : list (nat * reaction)) :
  Forall (fun pr => (fst pr < id)%nat) l ->
  find_reaction id (l ++ [ (id, r) ]) = Some r.
Proof.
  induction 1 as [|[i r'] l Hlt _ IH]; simpl.
  - now rewrite Nat.eqb_refl.
  - simpl in Hlt. destruct (Nat.eqb_spec i id); [lia | exact IH].
Qed.

(** X3: the one line a delivery leaves in the log.  On success it is a
    debug line, on failure an error line with the reason under [err]; both
    name the session, the event type and the URL, and carry the payload,
    a falsy payload (undefined, null, 0, the empty string) being logged as
    the empty string. *)
Theorem webhook_log_line
    (cfg : config) (turns : list turn) (u s d x : jsval) (o : http_outcome) :
  enableWebHook cfg = true ->
  let st := run cfg turns in
  let done := complete (next_id st) o (snd (triggerWebhook cfg u s d x st)) in
  match axios_settle o with
  | Fulfilled _ =>
      logs done = logs st ++
        [ {| log_lvl := LvlDebug;
             log_fields := [ ("sessionId", s); ("dataType", d);
                             ("data", if truthy x then x else JStr "") ];
             log_msg := String.append "Webhook message sent to " (js_to_string u) |} ]
  | Rejected e =>
      logs done = logs st ++
        [ {| log_lvl := LvlError;
             log_fields := [ ("sessionId", s); ("dataType", d);
                             ("err", error_to_js e);
                             ("data", if truthy x then x else JStr "") ];
             log_msg := String.append "Failed to send webhook message to "
                                      (js_to_string u) |} ]
  end.
Proof.
  intros Hen. cbv zeta. destruct (run_ok cfg turns) as [Hin _].
  assert (Hlt : Forall (fun pr => (fst pr < next_id (run cfg turns))%nat)
                       (inflight (run cfg turns)))
    by (eapply List.Forall_impl; [|exact Hin]; simpl; tauto).
  unfold triggerWebhook. rewrite Hen.
  unfold axios_post, attach. cbn [fst snd inflight next_id logs unhandled issued].
  rewrite !attach_newest by exact Hlt.
  unfold complete. cbn [inflight logs].
  rewrite find_reaction_newest by exact Hlt.
  destruct (axios_settle o) as [v|e]; reflexivity.
Qed.

Lemma webhook_log_line_witness :
  logs (complete 1 (NetworkError (new_Error "connect ECONNREFUSED 127.0.0.1:80"))
          (snd (triggerWebhook sample_cfg (JStr "http://localhost/hook") (JStr "s1")
                               (JStr "qr") JNull (run sample_cfg sample_turns))))
  = [ {| log_lvl := LvlError;
         log_fields := [ ("sessionId", JStr "s1"); ("dataType", JStr "qr");
                         ("err", error_to_js (new_Error "connect ECONNREFUSED 127.0.0.1:80"));
                         ("data", JStr "") ];
         log_msg := "Failed to send webhook message to http://localhost/hook" |} ].
Proof.
  exact (webhook_log_line sample_cfg sample_turns (JStr "http://localhost/hook")
           (JStr "s1") (JStr "qr") JNull
           (NetworkError (new_Error "connect ECONNREFUSED 127.0.0.1:80")) eq_refl).
Defined.

End WebhookAccounting.

(** ** More on the configuration and the event filter *)

Section ConfigExtras.
Import Utils.

(** X4: when DISABLED_CALLBACKS lists bar-free names separated by bars,
    exactly the listed names are suppressed: the match is on the whole
    name, with no trimming and no case folding. *)
Theorem listed_names_are_suppressed
    (env : gmap string string) (names : list string) (e : string) :
  names <> [] ->
  Forall (fun n => has_char "|" n = false) names ->
  join_with "|" names <> EmptyString ->
  env !! "DISABLED_CALLBACKS" = Some (join_with "|" names) ->
  (isEventEnabled (load env) e = true <-> ~ In e names).
Proof.
  intros Hne Hall Hjoin Henv.
  assert (Hd : disabledCallbacks (load env) = names).
  { unfold load, getenv. cbn [disabledCallbacks]. rewrite Henv.
    unfold parse_disabledCallbacks, truthy.
    destruct (String.eqb_spec (join_with "|" names) ""); [contradiction|].
    cbn [negb]. now apply split_on_join. }
  unfold isEventEnabled. rewrite Hd, <- includes_In.
  destruct (includes names e); simpl; split; intros; congruence.
Qed.

Lemma listed_names_are_suppressed_witness :
  isEventEnabled (load {[ "DISABLED_CALLBACKS" := "message_ack|qr" ]}) "message" = true
  <-> ~ In "message" [ "message_ack"; "qr" ].
Proof.
  apply (listed_names_are_suppressed
           {[ "DISABLED_CALLBACKS" := "message_ack|qr" ]} [ "message_ack"; "qr" ] "message").
  - discriminate.
  - repeat constructor.
  - discriminate.
  - reflexivity.
Defined.

(** X5: an event type whose name holds a bar can never be suppressed,
    whatever DISABLED_CALLBACKS says. *)
Theorem barred_event_is_always_enabled (env : gmap string string) (e : string) :
  has_char "|" e = true -> isEventEnabled (load env) e = true.
Proof.
  intros Hbar. unfold isEventEnabled.
  destruct (includes (disabledCallbacks (load env)) e) eqn:Hinc; [|reflexivity].
  apply includes_In in Hinc. exfalso.
  unfold load, getenv in Hinc. cbn [disabledCallbacks] in Hinc.
  destruct (env !! "DISABLED_CALLBACKS") as [s|]; [|destruct Hinc].
  unfold parse_disabledCallbacks in Hinc.
  destruct (truthy (JStr s)); [|destruct Hinc].
  apply split_on_pieces in Hinc. congruence.
Qed.

Lemma barred_event_is_always_enabled_witness :
  isEventEnabled (load {[ "DISABLED_CALLBACKS" := "a|b" ]}) "a|b" = true.
Proof.
  apply barred_event_is_always_enabled. reflexivity.
Defined.

(** *** Empty and unset variables *)

Lemma getenv_blank {A} (f : jsval -> A) (env : gmap string string) (k name : string) :
  f (JStr "") = f JUndefined ->
  f (getenv (<[k := ""]> env) name) = f (getenv (delete k env) name).
Proof.
  intros Hf. unfold getenv. destruct (decide (k = name)) as [->|Hne].
  - now rewrite lookup_insert_eq, lookup_delete_eq.
  - now rewrite lookup_insert_ne, lookup_delete_ne.
Qed.

Lemma getenv_other (env : gmap string string) (k name : string) :
  k <> name ->
  getenv (<[k := ""]> env) name = getenv (delete k env) name.
Proof.
  intros Hne. unfold getenv. now rewrite lookup_insert_ne, lookup_delete_ne.
Qed.

(** X6: setting a variable to the empty string configures the service
    exactly as leaving it unset does, for every variable but API_KEY,
    BASE_WEBHOOK_URL and WEB_VERSION, which are exported as they are. *)
Theorem empty_variable_is_unset (env : gmap string string) (k : string) :
  k <> "API_KEY" -> k <> "BASE_WEBHOOK_URL" -> k <> "WEB_VERSION" ->
  load (<[k := ""]> env) = load (delete k env).
Proof.
  intros H1 H2 H3. unfold load.
  rewrite (getenv_other env k "API_KEY" H1),
          (getenv_other env k "BASE_WEBHOOK_URL" H2),
          (getenv_other env k "WEB_VERSION" H3).
  f_equal.
  all: first [ apply (getenv_blank (fun v => js_or v _)); reflexivity
             | apply (getenv_blank flag_off); reflexivity
             | apply (getenv_blank (flag_dflt _)); reflexivity
             | apply (getenv_blank parse_disabledCallbacks); reflexivity ].
Qed.

Lemma empty_variable_is_unset_witness :
  load (<["ENABLE_WEBHOOK" := ""]> ∅) = load (delete "ENABLE_WEBHOOK" ∅).
Proof.
  apply empty_variable_is_unset; discriminate.
Defined.

(** *** Boolean settings *)

(** The word [true] in any mix of upper and lower case. *)
Definition is_true_word (s : string) : bool :=
  match s with
  | String a (String b (String c (String d EmptyString))) =>
      (Ascii.eqb a "t" || Ascii.eqb a "T")
      && (Ascii.eqb b "r" || Ascii.eqb b "R")
      && (Ascii.eqb c "u" || Ascii.eqb c "U")
      && (Ascii.eqb d "e" || Ascii.eqb d "E")
  | _ => false
  end.

(** A boolean setting read the way the documentation puts it: the default
    when the variable is unset or empty, otherwise whether it spells
    [true]. *)
Definition flag_value (env : gmap string string) (name : string) (dflt : bool) : bool :=
  match env !! name with
  | Some s => if String.eqb s "" then dflt else is_true_word s
  | None => dflt
  end.

Lemma lower_ascii_is (c : ascii) (l u : ascii) :
  (l = "t"%char /\ u = "T"%char) \/ (l = "r"%char /\ u = "R"%char)
  \/ (l = "u"%char /\ u = "U"%char) \/ (l = "e"%char /\ u = "E"%char) ->
  Ascii.eqb (lower_ascii c) l = Ascii.eqb c l || Ascii.eqb c u.
Proof.
  intros [[-> ->]|[[-> ->]|[[-> ->]|[-> ->]]]];
    destruct c as [[] [] [] [] [] [] [] []]; reflexivity.
Qed.

Lemma toLowerCase_true (s : string) :
  String.eqb (toLowerCase s) "true" = is_true_word s.
Proof.
  destruct s as [|a [|b [|c [|d [|x s]]]]]; try reflexivity.
  - simpl. destruct (Ascii.eqb (lower_ascii a) "t"); reflexivity.
  - simpl. destruct (Ascii.eqb (lower_ascii a) "t"); [|reflexivity].
    destruct (Ascii.eqb (lower_ascii b) "r"); reflexivity.
  - simpl. destruct (Ascii.eqb (lower_ascii a) "t"); [|reflexivity].
    destruct (Ascii.eqb (lower_ascii b) "r"); [|reflexivity].
    destruct (Ascii.eqb (lower_ascii c) "u"); reflexivity.
  - cbn [toLowerCase String.eqb is_true_word].
    rewrite (lower_ascii_is a "t" "T"), (lower_ascii_is b "r" "R"),
            (lower_ascii_is c "u" "U"), (lower_ascii_is d "e" "E") by tauto.
    destruct (Ascii.eqb a "t" || Ascii.eqb a "T"); [|reflexivity].
    destruct (Ascii.eqb b "r" || Ascii.eqb b "R"); [|reflexivity].
    destruct (Ascii.eqb c "u" || Ascii.eqb c "U"); [|reflexivity].
    destruct (Ascii.eqb d "e" || Ascii.eqb d "E"); reflexivity.
  - cbn [toLowerCase String.eqb is_true_word].
    destruct (Ascii.eqb (lower_ascii a) "t"); [|reflexivity].
    destruct (Ascii.eqb (lower_ascii b) "r"); [|reflexivity].
    destruct (Ascii.eqb (lower_ascii c) "u"); [|reflexivity].
    destruct (Ascii.eqb (lower_ascii d) "e"); reflexivity.
Qed.

Lemma flag_off_value (env : gmap string string) (name : string) :
  flag_off (getenv env name) = flag_value env name false.
Proof.
  unfold flag_off, flag_value, getenv, js_or, truthy.
  destruct (env !! name) as [s|]; [|reflexivity].
  destruct (String.eqb_spec s ""); [subst; reflexivity|].
  cbn [negb js_to_string]. apply toLowerCase_true.
Qed.

Lemma flag_dflt_value (env : gmap string string) (name : string) (d : bool) :
  flag_dflt d (getenv env name) = flag_value env name d.
Proof.
  unfold flag_dflt, flag_value, getenv, truthy.
  destruct (env !! name) as [s|]; [|reflexivity].
  destruct (String.eqb_spec s ""); [reflexivity|].
  cbn [negb js_to_string]. apply toLowerCase_true.
Qed.

(** X7: every boolean setting is its default when the variable is unset
    or empty, and otherwise true exactly when the value spells [true] in
    any mix of upper and lower case; any other value, such as [1] or
    [yes], reads as false. *)
Theorem boolean_settings (env : gmap string string) :
  enableLocalCallbackExample (load env) = flag_value env "ENABLE_LOCAL_CALLBACK_EXAMPLE" false
  /\ setMessagesAsSeen (load env) = flag_value env "SET_MESSAGES_AS_SEEN" false
  /\ enableSwaggerEndpoint (load env) = flag_value env "ENABLE_SWAGGER_ENDPOINT" false
  /\ recoverSessions (load env) = flag_value env "RECOVER_SESSIONS" false
  /\ headless (load env) = flag_value env "HEADLESS" true
  /\ releaseBrowserLock (load env) = flag_value env "RELEASE_BROWSER_LOCK" true
  /\ enableWebHook (load env) = flag_value env "ENABLE_WEBHOOK" true
  /\ enableWebSocket (load env) = flag_value env "ENABLE_WEBSOCKET" false
  /\ autoStartSessions (load env) = flag_value env "AUTO_START_SESSIONS" true
  /\ trustProxy (load env) = flag_value env "TRUST_PROXY" false.
Proof.
  unfold load; cbn [enableLocalCallbackExample setMessagesAsSeen enableSwaggerEndpoint
                    recoverSessions headless releaseBrowserLock enableWebHook
                    enableWebSocket autoStartSessions trustProxy].
  repeat split; first [apply flag_off_value | apply flag_dflt_value].
Qed.

(** X8: in terms of the environment, the process refuses to start exactly
    when BASE_WEBHOOK_URL is unset or empty while ENABLE_WEBHOOK is unset,
    empty or spells [true]. *)
Theorem startup_refused_iff (env : gmap string string) :
  In (Server.ProcessExit 1) (Server.main (load env))
  <-> (env !! "BASE_WEBHOOK_URL" = None \/ env !! "BASE_WEBHOOK_URL" = Some EmptyString)
      /\ flag_value env "ENABLE_WEBHOOK" true = true.
Proof.
  unfold Server.main, Server.webhook_url_missing, load.
  cbn [baseWebhookURL enableWebHook]. rewrite flag_dflt_value.
  unfold getenv, truthy.
  assert (Hno : forall cfg, ~ In (Server.ProcessExit 1)
                              (Server.start_server cfg ++ Server.listen_callback cfg)).
  { intros cfg H. apply List.in_app_or in H.
    unfold Server.start_server, Server.listen_callback in H.
    destruct (enableWebSocket cfg), (autoStartSessions cfg); simpl in H;
      intuition discriminate. }
  destruct (env !! "BASE_WEBHOOK_URL") as [s|].
  - destruct (String.eqb_spec s "") as [->|Hs]; cbn [negb andb].
    + destruct (flag_value env "ENABLE_WEBHOOK" true).
      * split; [auto | intros _; simpl; auto].
      * split; [intros H; now apply Hno in H | intros [_ H]; discriminate].
    + split; [intros H; now apply Hno in H|].
      intros [[H|H] _]; [discriminate | congruence].
  - cbn [negb andb]. destruct (flag_value env "ENABLE_WEBHOOK" true).
    + split; [auto | intros _; simpl; auto].
    + split; [intros H; now apply Hno in H | intros [_ H]; discriminate].
Qed.

End ConfigExtras.

(** ** More on the channel controller *)

Section ChannelExtras.
Import Channel.

Ltac each_handler Hin :=
  unfold handlers in Hin; cbn [In] in Hin;
  repeat (destruct Hin as [Hin|Hin]; [injection Hin as <- <- |]);
  [ .. | destruct Hin ].

Ltac open_serve :=
  unfold serve;
  match goal with
  | |- context [?h _ _ hstate_init] => unfold h
  end;
  unfold try_catch, bind, destructure, sessions_get, getChatById, driver_await.

(** X9: when the request has no body, or [sessions] holds no client for
    the session id, every handler answers 500 with a structured error
    and makes no Driver call at all. *)
Theorem no_session_no_driver_call
    (n : string) (h : driver -> request -> M unit) (d : driver) (req : request) :
  In (n, h) handlers ->
  has_body req = false \/ sessions d !! params_sessionId req = None ->
  fst (serve h d req) = Ok tt
  /\ calls (snd (serve h d req)) = []
  /\ exists msg, res (snd (serve h d req)) = error_response 500 msg.
Proof.
  intros Hin Hor. unfold has_body in Hor.
  each_handler Hin; open_serve;
    (destruct (body req);
     [ | | destruct Hor as [Hor|Hor]; [discriminate | rewrite Hor] .. ]);
    cbn; eauto.
Qed.

Lemma no_session_no_driver_call_witness :
  calls (snd (serve sendMessage (one_session (steady_client JNull))
                    {| params_sessionId := "unknown"; body := JObj [] |})) = [].
Proof.
  refine (proj1 (proj2 (no_session_no_driver_call
            "sendMessage" sendMessage (one_session (steady_client JNull))
            {| params_sessionId := "unknown"; body := JObj [] |} _ _))).
  - simpl. right. left. reflexivity.
  - right. reflexivity.
Defined.

(** What may appear in a handler's record of Driver calls: the lookup of
    the requested chat, and operations performed once that lookup has
    returned a chat that is a channel. *)
Definition sound_call (d : driver) (req : request) (c : driver_call) : Prop :=
  match c with
  | GetChatById chatId => chatId = own_property (body req) "chatId"
  | ChatCall chat _ _ =>
      truthy chat = true
      /\ truthy (own_property chat "isChannel") = true
      /\ exists cl, sessions d !! params_sessionId req = Some cl
                    /\ client_getChatById cl (own_property (body req) "chatId") = Ok chat
  | FromUrl _ _ =>
      exists cl chat,
        sessions d !! params_sessionId req = Some cl
        /\ client_getChatById cl (own_property (body req) "chatId") = Ok chat
        /\ truthy chat = true
        /\ truthy (own_property chat "isChannel") = true
  end.

Ltac open_ops :=
  unfold error_message, member, keys_length, chat_call, fromUrl, driver_await,
    sendErrorResponse, res_json_, ret, throw.

Ltac split_oracles :=
  repeat (cbn;
          match goal with
          | |- context [MessageMedia_fromUrl ?d ?a ?b] =>
              destruct (MessageMedia_fromUrl d a b) eqn:?
          | |- context [chat_method ?c ?a ?m ?l] =>
              destruct (chat_method c a m l) eqn:?
          | |- context [match ?t with AnError _ => _ | AValue _ => _ end] =>
              destruct t as [?|[| | | | |]]
          | |- context [if ?b then _ else _] => destruct b eqn:?
          | |- context [match ?x with JUndefined => _ | _ => _ end] => destruct x eqn:?
          end).

Ltac walk_handler :=
  open_serve; open_ops; unfold sound_call;
  match goal with
  | |- context [body ?req] => destruct (body req) eqn:Hb
  end; cbn; try (constructor; fail);
  match goal with
  | |- context [sessions ?d !! ?k] => destruct (sessions d !! k) as [cl|] eqn:Hs
  end; cbn; try (constructor; fail);
  match goal with
  | |- context [client_getChatById ?c ?x] =>
      destruct (client_getChatById c x) as [chat|[e|[| | | | |]]] eqn:Hc
  end; cbn; try (repeat constructor; fail);
  match goal with
  | |- context [truthy ?c] => destruct (truthy c) eqn:Ht
  end; cbn; try (repeat constructor; fail);
  match goal with
  | |- context [truthy (own_property ?c "isChannel")] =>
      destruct (truthy (own_property c "isChannel")) eqn:Hi
  end; cbn; try (repeat constructor; fail);
  split_oracles.

(** X10: Driver operations happen only on validated channels.  In every
    handler's record of Driver calls the lookup is for the requested chat
    id, and every chat operation and every media download comes after a
    lookup that returned a truthy chat whose [isChannel] is truthy; chat
    operations are performed on that very chat. *)
Theorem driver_calls_are_on_channels
    (n : string) (h : driver -> request -> M unit) (d : driver) (req : request) :
  In (n, h) handlers ->
  Forall (sound_call d req) (calls (snd (serve h d req))).
Proof.
  intros Hin.
  each_handler Hin; walk_handler; repeat constructor; cbn; eauto 10.
Qed.

Lemma driver_calls_are_on_channels_witness :
  Forall (sound_call (one_session (steady_client (JObj [ ("isChannel", JBool true) ])))
                     mute_request)
         (calls (snd (serve setProfilePicture
                            (one_session (steady_client (JObj [ ("isChannel", JBool true) ])))
                            mute_request))).
Proof.
  apply (driver_calls_are_on_channels "setProfilePicture").
  simpl. do 12 right. left. reflexivity.
Defined.

(** The request reached a channel: it has a body, its session has a
    client, and the lookup returned a truthy chat whose [isChannel] is
    truthy. *)
Definition reaches_channel (d : driver) (req : request) (cl : client) (chat : jsval)
  : Prop :=
  has_body req = true
  /\ sessions d !! params_sessionId req = Some cl
  /\ client_getChatById cl (own_property (body req) "chatId") = Ok chat
  /\ truthy chat = true
  /\ truthy (own_property chat "isChannel") = true.

Ltac enter_channel H :=
  destruct H as (Hb & Hs & Hc & Ht & Hi);
  open_serve;
  unfold has_body in Hb;
  match type of Hb with
  | context [body ?req] => destruct (body req); try discriminate Hb
  end;
  cbn [ret]; rewrite Hs; cbn beta iota; rewrite Hc; cbn [negb];
  rewrite Ht; cbn [negb]; rewrite Hi; cbn [negb].

Definition ok_response (body_ : jsval) : response :=
  {| statusCode := 200; sent := [ (200, body_) ] |}.

(** X11: [sendMessage] with a [contentType] other than the three it knows
    (or none at all) answers 400 ['invalid contentType'] and sends
    nothing: the lookup is the only Driver call. *)
Theorem sendMessage_rejects_unknown_contentType
    (d : driver) (req : request) (cl : client) (chat : jsval) :
  reaches_channel d req cl chat ->
  is_string (own_property (body req) "contentType") "string" = false ->
  is_string (own_property (body req) "contentType") "MessageMediaFromURL" = false ->
  is_string (own_property (body req) "contentType") "MessageMedia" = false ->
  serve sendMessage d req =
    (Ok tt, {| res := error_response 400 "invalid contentType";
               calls := [ GetChatById (own_property (body req) "chatId") ] |}).
Proof.
  intros H H1 H2 H3. enter_channel H; cbn [own_property] in *;
    rewrite H1, H2, H3; reflexivity.
Qed.

Definition channel_chat : jsval := JObj [ ("isChannel", JBool true) ].

Lemma channel_reached (b : list (string * jsval)) :
  reaches_channel (one_session (steady_client channel_chat))
                  {| params_sessionId := "s1"; body := JObj b |}
                  (steady_client channel_chat) channel_chat.
Proof. repeat split. Qed.

Lemma sendMessage_rejects_unknown_contentType_witness :
  serve sendMessage (one_session (steady_client channel_chat))
        {| params_sessionId := "s1";
           body := JObj [ ("chatId", JStr "1@newsletter"); ("contentType", JStr "text");
                          ("content", JStr "hello") ] |}
  = (Ok tt, {| res := error_response 400 "invalid contentType";
               calls := [ GetChatById (JStr "1@newsletter") ] |}).
Proof.
  exact (sendMessage_rejects_unknown_contentType
           (one_session (steady_client channel_chat))
           {| params_sessionId := "s1";
              body := JObj [ ("chatId", JStr "1@newsletter"); ("contentType", JStr "text");
                             ("content", JStr "hello") ] |}
           (steady_client channel_chat) channel_chat
           (channel_reached _) eq_refl eq_refl eq_refl).
Defined.

(** *** Object spread *)

Definition has_key (k : string) (props : list (string * jsval)) : bool :=
  existsb (String.eqb k) (map fst props).

Lemma assoc_get_obj_set_same (k : string) (v : jsval) (l : list (string * jsval)) :
  assoc_get k (obj_set k v l) = v.
Proof.
  induction l as [|[k' v'] l IH]; simpl.
  - now rewrite String.eqb_refl.
  - destruct (String.eqb k k') eqn:E; simpl; rewrite E; [reflexivity | exact IH].
Qed.

Lemma assoc_get_obj_set_other (k k' : string) (v : jsval) (l : list (string * jsval)) :
  k <> k' -> assoc_get k (obj_set k' v l) = assoc_get k l.
Proof.
  intros Hne. induction l as [|[k0 v0] l IH]; simpl.
  - destruct (String.eqb_spec k k'); [contradiction | reflexivity].
  - destruct (String.eqb_spec k' k0) as [->|Hk0]; simpl.
    + destruct (String.eqb_spec k k0); [contradiction | reflexivity].
    + destruct (String.eqb k k0); [reflexivity | exact IH].
Qed.

(** In [{ ...base, ...extra }] a key of [extra] takes the value [extra]
    gives it and any other key keeps the value it has in [base]. *)
Lemma spread_get (k : string) (base props : list (string * jsval)) :
  List.NoDup (map fst props) ->
  assoc_get k (spread base (JObj props)) =
  if has_key k props then assoc_get k props else assoc_get k base.
Proof.
  unfold spread, has_key. revert base.
  induction props as [|[k1 v1] props IH]; intros base Hnd; [reflexivity|].
  simpl in Hnd. apply List.NoDup_cons_iff in Hnd. destruct Hnd as [Hni Hnd].
  cbn [fold_left fst snd map existsb assoc_get]. rewrite IH by exact Hnd.
  destruct (String.eqb_spec k k1) as [->|Hne]; cbn [orb].
  - replace (existsb (String.eqb k1) (map fst props)) with false.
    + apply assoc_get_obj_set_same.
    + symmetry. apply Bool.not_true_is_false. intros H.
      apply existsb_exists in H. destruct H as (y & Hy & Heq).
      apply String.eqb_eq in Heq. now subst.
  - destruct (existsb (String.eqb k) (map fst props)); [reflexivity|].
    now apply assoc_get_obj_set_other.
Qed.

(** X12: the options [sendMessage] hands to the Driver for a text message
    are the caller's [options] with [waitUntilMsgSent: true] as a default:
    every key the caller set keeps the caller's value, [waitUntilMsgSent]
    included, and [waitUntilMsgSent] is true when the caller left it
    out. *)
Theorem sendMessage_options_default
    (d : driver) (req : request) (cl : client) (chat : jsval)
    (opts : list (string * jsval)) :
  reaches_channel d req cl chat ->
  is_string (own_property (body req) "contentType") "string" = true ->
  own_property (body req) "options" = JObj opts ->
  List.NoDup (map fst opts) ->
  exists sendOptions,
    calls (snd (serve sendMessage d req)) =
      [ GetChatById (own_property (body req) "chatId");
        ChatCall chat "sendMessage"
                 [ own_property (body req) "content"; JObj sendOptions ] ]
    /\ (forall k, has_key k opts = true -> assoc_get k sendOptions = assoc_get k opts)
    /\ (has_key "waitUntilMsgSent" opts = false ->
        assoc_get "waitUntilMsgSent" sendOptions = JBool true).
Proof.
  intros H Hct Hopts Hnd.
  exists (spread [ ("waitUntilMsgSent", JBool true) ] (JObj opts)).
  split; [|split].
  - enter_channel H; cbn [own_property] in *; rewrite Hct, Hopts;
      unfold chat_call, driver_await, res_json_, sendErrorResponse;
      match goal with
      | |- context [chat_method ?c ?a ?m ?l] =>
          destruct (chat_method c a m l) as [?|[?|[| | | | |]]]
      end; reflexivity.
  - intros k Hk. rewrite spread_get by exact Hnd. now rewrite Hk.
  - intros Hk. rewrite spread_get by exact Hnd. now rewrite Hk.
Qed.

Lemma sendMessage_options_default_witness :
  exists sendOptions,
    calls (snd (serve sendMessage (one_session (steady_client channel_chat))
                  {| params_sessionId := "s1";
                     body := JObj [ ("chatId", JStr "1@newsletter");
                                    ("contentType", JStr "string");
                                    ("content", JStr "hello");
                                    ("options", JObj [ ("waitUntilMsgSent", JBool false) ]) ] |}))
    = [ GetChatById (JStr "1@newsletter");
        ChatCall channel_chat "sendMessage" [ JStr "hello"; JObj sendOptions ] ]
    /\ assoc_get "waitUntilMsgSent" sendOptions = JBool false.
Proof.
  destruct (sendMessage_options_default
              (one_session (steady_client channel_chat))
              {| params_sessionId := "s1";
                 body := JObj [ ("chatId", JStr "1@newsletter");
                                ("contentType", JStr "string");
                                ("content", JStr "hello");
                                ("options", JObj [ ("waitUntilMsgSent", JBool false) ]) ] |}
              (steady_client channel_chat) channel_chat
              [ ("waitUntilMsgSent", JBool false) ]
              (channel_reached _) eq_refl eq_refl
              (List.NoDup_cons _ (@List.in_nil _ _) (List.NoDup_nil _)))
    as (so & Hcalls & Hkeep & _).
  exists so. split; [exact Hcalls|]. exact (Hkeep "waitUntilMsgSent" eq_refl).
Defined.

(** X13: [fetchMessages] passes [searchOptions] to the Driver only when
    it has at least one key; when it is missing or empty the Driver's
    [fetchMessages] is called without arguments; and a [null]
    [searchOptions] is answered with 500 before the Driver is asked for
    messages. *)
Theorem fetchMessages_search_options
    (d : driver) (req : request) (cl : client) (chat : jsval) :
  reaches_channel d req cl chat ->
  let searchOptions := own_property (body req) "searchOptions" in
  let lookup := GetChatById (own_property (body req) "chatId") in
  let out := snd (serve fetchMessages d req) in
  (searchOptions = JNull ->
   calls out = [ lookup ] /\ exists msg, res out = error_response 500 msg)
  /\ (searchOptions = JUndefined \/ searchOptions = JObj [] ->
      calls out = [ lookup; ChatCall chat "fetchMessages" [] ])
  /\ (forall p ps, searchOptions = JObj (p :: ps) ->
      calls out = [ lookup; ChatCall chat "fetchMessages" [ searchOptions ] ]).
Proof.
  intros H. cbv zeta. split; [|split].
  - intros Hso. revert Hso.
    enter_channel H; cbn [own_property] in *; intros Hso;
      try discriminate Hso; rewrite Hso; cbn; eauto.
  - intros Hso. revert Hso.
    enter_channel H; cbn [own_property] in *; (intros [Hso | Hso]);
      try discriminate Hso; try rewrite Hso; cbn;
      match goal with
      | |- context [chat_method ?c ?a ?m ?l] =>
          destruct (chat_method c a m l) as [?|[?|[| | | | |]]]
      end; reflexivity.
  - intros p ps Hso. revert Hso.
    enter_channel H; cbn [own_property] in *; intros Hso;
      try discriminate Hso; rewrite Hso; cbn;
      match goal with
      | |- context [chat_method ?c ?a ?m ?l] =>
          destruct (chat_method c a m l) as [?|[?|[| | | | |]]]
      end; reflexivity.
Qed.

Lemma fetchMessages_search_options_witness :
  calls (snd (serve fetchMessages (one_session (steady_client channel_chat))
                {| params_sessionId := "s1";
                   body := JObj [ ("chatId", JStr "1@newsletter");
                                  ("searchOptions", JObj []) ] |}))
  = [ GetChatById (JStr "1@newsletter"); ChatCall channel_chat "fetchMessages" [] ].
Proof.
  refine (proj1 (proj2 (fetchMessages_search_options
            (one_session (steady_client channel_chat))
            {| params_sessionId := "s1";
               body := JObj [ ("chatId", JStr "1@newsletter");
                              ("searchOptions", JObj []) ] |}
            (steady_client channel_chat) channel_chat (channel_reached _))) _).
  right. reflexivity.
Defined.

(** X14: when [setProfilePicture] is given both a picture URL and inline
    media, the URL is still downloaded, but the picture that is set is
    the inline one, with no file name and no size; and if the download
    throws, no picture is set, inline media or not: the answer is 500
    with the message of the error thrown (for a thrown value that is not
    an [Error]: nothing is sent when it is undefined or null, and else
    500 with its [message] property). *)
Theorem setProfilePicture_prefers_inline_media
    (d : driver) (req : request) (cl : client) (chat : jsval) :
  reaches_channel d req cl chat ->
  truthy (own_property (body req) "newProfilePictureUrl") = true ->
  truthy (optional_member (own_property (body req) "newProfilePictureMedia") "data") = true ->
  let url := own_property (body req) "newProfilePictureUrl" in
  let media := own_property (body req) "newProfilePictureMedia" in
  let lookup := GetChatById (own_property (body req) "chatId") in
  let download := FromUrl url (JObj [ ("unsafeMime", JBool true) ]) in
  let out := snd (serve setProfilePicture d req) in
  match MessageMedia_fromUrl d url (JObj [ ("unsafeMime", JBool true) ]) with
  | Ok _ =>
      calls out =
        [ lookup; download;
          ChatCall chat "setProfilePicture"
                   [ new_MessageMedia (own_property media "mimetype")
                                      (own_property media "data") JNull JNull ] ]
  | Throw (AnError e) =>
      calls out = [ lookup; download ] /\ res out = error_response 500 (err_message e)
  | Throw (AValue v) =>
      calls out = [ lookup; download ]
      /\ match v with
         | JUndefined | JNull => sent (res out) = []
         | _ => res out = error_reply 500 (own_property v "message")
         end
  end.
Proof.
  intros H Hu Hm. cbv zeta.
  enter_channel H; cbn [own_property] in *; rewrite Hu;
    unfold fromUrl, chat_call, driver_await, res_json_, sendErrorResponse;
    (destruct (MessageMedia_fromUrl d _ _) as [?|[?|[| | | | |]]];
     [|split; reflexivity ..]);
    rewrite Hm;
    match goal with
    | |- context [chat_method ?c ?a ?m ?l] =>
        destruct (chat_method c a m l) as [?|[?|[| | | | |]]]
    end; reflexivity.
Qed.

Lemma setProfilePicture_prefers_inline_media_witness :
  calls (snd (serve setProfilePicture (one_session (steady_client channel_chat))
                {| params_sessionId := "s1";
                   body := JObj [ ("chatId", JStr "1@newsletter");
                                  ("newProfilePictureUrl", JStr "http://pics.example/a.png");
                                  ("newProfilePictureMedia",
                                   JObj [ ("mimetype", JStr "image/png");
                                          ("data", JStr "iVBORw0KGgo=") ]) ] |}))
  = [ GetChatById (JStr "1@newsletter");
      FromUrl (JStr "http://pics.example/a.png") (JObj [ ("unsafeMime", JBool true) ]);
      ChatCall channel_chat "setProfilePicture"
               [ new_MessageMedia (JStr "image/png") (JStr "iVBORw0KGgo=") JNull JNull ] ].
Proof.
  exact (setProfilePicture_prefers_inline_media
           (one_session (steady_client channel_chat))
           {| params_sessionId := "s1";
              body := JObj [ ("chatId", JStr "1@newsletter");
                             ("newProfilePictureUrl", JStr "http://pics.example/a.png");
                             ("newProfilePictureMedia",
                              JObj [ ("mimetype", JStr "image/png");
                                     ("data", JStr "iVBORw0KGgo=") ]) ] |}
           (steady_client channel_chat) channel_chat (channel_reached _) eq_refl eq_refl).
Defined.

(** The handlers that perform one chat operation: the Driver method each
    calls and the arguments it takes from the request body, with the
    defaults of the destructuring. *)
Definition single_operations
  : list ((driver -> request -> M unit) * string * ((string -> jsval) -> list jsval)) :=
  [ (sendSeen, "sendSeen", fun _ => []);
    (mute, "mute", fun _ => []);
    (unmute, "unmute", fun _ => []);
    (setSubject, "setSubject", fun b => [ dflt (b "newSubject") (JStr "") ]);
    (acceptChannelAdminInvite, "acceptChannelAdminInvite", fun _ => []);
    (sendChannelAdminInvite, "sendChannelAdminInvite",
       fun b => if truthy (b "options") then [ b "userId"; b "options" ] else [ b "userId" ]);
    (demoteChannelAdmin, "demoteChannelAdmin", fun b => [ b "userId" ]);
    (transferChannelOwnership, "transferChannelOwnership",
       fun b => if truthy (b "options") then [ b "newOwnerId"; b "options" ]
                else [ b "newOwnerId" ]);
    (revokeChannelAdminInvite, "revokeChannelAdminInvite", fun b => [ b "userId" ]);
    (getSubscribers, "getSubscribers", fun b => [ dflt (b "limit") JNull ]);
    (deleteChannel, "deleteChannel", fun _ => []);
    (setReactionSetting, "setReactionSetting", fun b => [ dflt (b "reactionCode") (JNum 0) ]);
    (setDescription, "setDescription", fun b => [ dflt (b "newDescription") (JStr "") ]) ].

(** X15: each single-operation handler, once it has reached a channel,
    calls the Driver method of its own name exactly once, with the
    arguments of the request body (an absent [newSubject] or
    [newDescription] is the empty string, an absent [limit] is null, an
    absent [reactionCode] is 0, falsy [options] are not passed), and
    answers 200 with the method's result, or 500 with the message of the
    error the method threw.  When what the method threw is not an
    [Error], the handler rejects without an answer if it is undefined or
    null, and else answers 500 with its [message] property. *)
Theorem single_operation_handlers
    (h : driver -> request -> M unit) (method : string)
    (args : (string -> jsval) -> list jsval)
    (d : driver) (req : request) (cl : client) (chat : jsval) :
  In (h, method, args) single_operations ->
  reaches_channel d req cl chat ->
  let made := [ GetChatById (own_property (body req) "chatId");
                ChatCall chat method (args (own_property (body req))) ] in
  serve h d req =
    match chat_method cl chat method (args (own_property (body req))) with
    | Ok result =>
        (Ok tt,
         {| res := ok_response (JObj [ ("success", JBool true); ("result", result) ]);
            calls := made |})
    | Throw (AnError e) =>
        (Ok tt, {| res := error_response 500 (err_message e); calls := made |})
    | Throw (AValue JUndefined) =>
        (Throw (TypeError "Cannot read properties of undefined (reading 'message')"),
         {| res := fresh_response; calls := made |})
    | Throw (AValue JNull) =>
        (Throw (TypeError "Cannot read properties of null (reading 'message')"),
         {| res := fresh_response; calls := made |})
    | Throw (AValue v) =>
        (Ok tt, {| res := error_reply 500 (own_property v "message"); calls := made |})
    end.
Proof.
  intros Hin H. cbv zeta. unfold single_operations in Hin. cbn [In] in Hin.
  repeat (destruct Hin as [Hin|Hin]; [injection Hin as <- <- <- |]);
    [ .. | destruct Hin ].
  all: enter_channel H; cbn [own_property] in *;
    unfold chat_call, driver_await, res_json_, sendErrorResponse, success;
    repeat match goal with
           | |- context [if truthy ?o then _ else _] => destruct (truthy o)
           end;
    match goal with
    | |- context [chat_method ?c ?a ?m ?l] =>
        destruct (chat_method c a m l) as [?|[?|[| | | | |]]]
    end; reflexivity.
Qed.

Lemma single_operation_handlers_witness :
  serve getSubscribers (one_session (steady_client channel_chat))
        {| params_sessionId := "s1"; body := JObj [ ("chatId", JStr "1@newsletter") ] |}
  = (Ok tt,
     {| res := ok_response (JObj [ ("success", JBool true); ("result", JBool true) ]);
        calls := [ GetChatById (JStr "1@newsletter");
                   ChatCall channel_chat "getSubscribers" [ JNull ] ] |}).
Proof.
  refine (single_operation_handlers getSubscribers "getSubscribers"
            (fun b => [ dflt (b "limit") JNull ])
            (one_session (steady_client channel_chat))
            {| params_sessionId := "s1"; body := JObj [ ("chatId", JStr "1@newsletter") ] |}
            (steady_client channel_chat) channel_chat _ (channel_reached _)).
  simpl. do 9 right. left. reflexivity.
Defined.

End ChannelExtras.

(** ** More on waiting and on chunked decoding *)

Section UtilsExtras.
Import Utils.

(** X16: whenever the polling of [waitForNestedObject] ends, it ends at
    the first poll that does not go on.  Every earlier poll read a falsy
    value within the deadline and set one timer with the interval as
    given (100 when omitted).  The last poll either found a truthy value
    and resolved; or found none past the deadline, logged the timeout and
    rejected; or threw while reading, which rejects the promise with that
    exception in the first poll and escapes as an uncaught exception of
    the timer callback in a later one.  With a deadline of [Infinity] or
    [NaN] the timeout is never logged. *)
Theorem waitForNestedObject_ends_at_first_stop
    (get : property_read) (w : world) (start : Z) (nestedPath : string)
    (maxWaitTime interval : option jsnum) (fuel : nat) (r : settled) :
  waitForNestedObject get w start nestedPath maxWaitTime interval fuel = Some r ->
  let limit := default (Finite 10000) maxWaitTime in
  (poll r < fuel)%nat
  /\ (forall j, (j < poll r)%nat ->
        exists v, nested get (root_at w j) nestedPath = Value v
                  /\ truthy v = false
                  /\ ~ past limit (clock w j - start))
  /\ timers r = List.repeat (default (Finite 100) interval) (poll r)
  /\ match nested get (root_at w (poll r)) nestedPath with
     | Raises e =>
         outcome r = match poll r with
                     | O => Settled (Rejected e)
                     | S _ => Uncaught e
                     end
         /\ wrote r = []
     | Value v =>
         if truthy v then
           outcome r = Settled (Fulfilled JUndefined) /\ wrote r = []
         else
           past limit (clock w (poll r) - start)
           /\ outcome r = Settled (Rejected (new_Error "Timeout waiting for nested object"))
           /\ wrote r = [ {| log_lvl := LvlError; log_fields := [];
                             log_msg := "Timed out waiting for nested object" |} ]
     end
  /\ (limit = PosInfinity \/ limit = NaN -> wrote r = []).
Proof.
  intros Hr. cbv zeta. unfold waitForNestedObject in Hr.
  pose proof (checkObject_poll_bound _ _ _ _ _ _ _ _ _ Hr) as Hfuel.
  destruct (checkObject_first _ _ _ _ _ _ _ _ _ Hr) as (_ & Hbefore & Hend & Htm).
  unfold ends_with in Hend.
  split; [lia|]. split; [|split; [exact Htm | split]].
  - intros j Hj. destruct (Hbefore j ltac:(lia)) as (v & Hv & Ht & He).
    exists v. apply (proj2 (exceeds_past _ _)) in He. auto.
  - destruct (nested get (root_at w (poll r)) nestedPath) as [v|e]; [|exact Hend].
    destruct (truthy v); [exact Hend|].
    destruct Hend as (He & Ho & Hw). apply (proj1 (exceeds_past _ _)) in He. auto.
  - intros Hlim.
    destruct (nested get (root_at w (poll r)) nestedPath) as [v|e]; [|tauto].
    destruct (truthy v); [tauto|].
    destruct Hend as (Hex & _). destruct Hlim as [Hlim|Hlim]; rewrite Hlim in Hex;
      discriminate.
Qed.

(** A store whose getter throws once the page has been torn down, at the
    third poll. *)
Definition torn_down : js_error := new_Error "Session closed".

Definition tearing_read : property_read := fun obj key =>
  match obj with
  | JObj (("closed", JBool true) :: _) => Raises torn_down
  | _ => Value (own_property obj key)
  end.

Definition torn_at_2 : world :=
  {| root_at := fun k => if (k <? 2)%nat then JObj [ ("pupBrowser", JObj []) ]
                         else JObj [ ("closed", JBool true) ];
     clock := fun k => 1000 + 100 * Z.of_nat k |}.

Lemma waitForNestedObject_ends_at_first_stop_witness :
  exists r,
    waitForNestedObject tearing_read torn_at_2 1000 "pupPage" None (Some (Finite 50)) 5
    = Some r
    /\ poll r = 2%nat
    /\ outcome r = Uncaught torn_down
    /\ timers r = [ Finite 50; Finite 50 ].
Proof.
  eexists. split; [reflexivity|].
  pose proof (waitForNestedObject_ends_at_first_stop tearing_read torn_at_2 1000
                "pupPage" None (Some (Finite 50)) 5 _ eq_refl) as H.
  cbv zeta in H. destruct H as (_ & _ & Htm & Hend & _).
  split; [reflexivity|]. split; [exact (proj1 Hend) | exact Htm].
Defined.

Lemma split_on_app (sep : ascii) (p q : string) :
  split_on sep (String.append p (String sep q)) = split_on sep p ++ split_on sep q.
Proof.
  induction p as [|c p IH]; simpl.
  - now rewrite Ascii.eqb_refl.
  - destruct (Ascii.eqb c sep); [now rewrite IH|].
    rewrite IH. pose proof (split_on_nonempty sep p) as Hne.
    destruct (split_on sep p); [congruence | reflexivity].
Qed.

Lemma walk_from_falsy (get : property_read) (keys : list string) (v : jsval) :
  truthy v = false -> keys <> [] ->
  fold_left (fun acc key =>
               match acc with
               | Value obj => if truthy obj then get obj key else Value JUndefined
               | Raises e => Raises e
               end) keys (Value v) = Value JUndefined.
Proof.
  intros Hv Hne. destruct keys as [|k keys]; [congruence|].
  cbn [fold_left]. rewrite Hv. clear.
  induction keys as [|k' keys IH]; [reflexivity | exact IH].
Qed.

(** X17: a dotted path is walked one segment at a time, whatever reading
    a property involves.  A path without a dot is one read of the root,
    or undefined without a read when the root is falsy.  The value at
    [p.q] is the value at [q] inside the value at [p], and an exception
    while reading [p] is the outcome for [p.q].  Once a segment leads to
    a falsy value (a missing key, null, 0, false, the empty string)
    everything below it is undefined, without any further read. *)
Theorem nested_path_composes (get : property_read) (rootObj : jsval) (p q : string) :
  nested get rootObj (String.append p (String "." q))
  = match nested get rootObj p with
    | Value v => nested get v q
    | Raises e => Raises e
    end
  /\ (forall v, nested get rootObj p = Value v -> truthy v = false ->
      nested get rootObj (String.append p (String "." q)) = Value JUndefined)
  /\ (has_char "." p = false ->
      nested get rootObj p = if truthy rootObj then get rootObj p else Value JUndefined).
Proof.
  assert (H : nested get rootObj (String.append p (String "." q))
              = match nested get rootObj p with
                | Value v => nested get v q
                | Raises e => Raises e
                end).
  { unfold nested. rewrite split_on_app, List.fold_left_app.
    destruct (fold_left _ (split_on "." p) (Value rootObj)) as [v|e];
      [reflexivity | apply walk_raised]. }
  split; [exact H|]. split.
  - intros v Hv Hf. rewrite H, Hv. unfold nested.
    apply walk_from_falsy; [exact Hf | apply split_on_nonempty].
  - intros Hp. unfold nested. now rewrite split_on_plain.
Qed.

(** *** The chunks of [decodeBase64] *)

Lemma chunks_needed (c x : nat) :
  (0 < c)%nat -> (0 < x)%nat ->
  S ((x - c + (c - 1)) / c) = ((x + (c - 1)) / c)%nat.
Proof.
  intros Hc Hx. destruct (Nat.le_gt_cases c x) as [Hge|Hlt].
  - replace (x + (c - 1))%nat with ((x - c + (c - 1)) + 1 * c)%nat by lia.
    rewrite Nat.div_add by lia. lia.
  - replace (x - c + (c - 1))%nat with (c - 1)%nat by lia.
    rewrite Nat.div_small by lia.
    apply Nat.div_unique with (r := (x - 1)%nat); lia.
Qed.

Lemma decodeBase64_from_length (s : string) (i : nat) :
  length (decodeBase64_from s i)
  = ((String.length s - i + (chunkSize - 1)) / chunkSize)%nat.
Proof.
  funelim (decodeBase64_from s i).
  - cbn [length]. rewrite H.
    replace (String.length base64String - (i + chunkSize))%nat
      with (String.length base64String - i - chunkSize)%nat by lia.
    apply chunks_needed; [unfold chunkSize|]; lia.
  - replace (String.length base64String - i)%nat with 0%nat by lia.
    symmetry. apply Nat.div_small. unfold chunkSize. lia.
Qed.

(** X18: [decodeBase64] yields one Buffer per started block of 1024
    characters: none for the empty string, and [ceil(length / 1024)] in
    general. *)
Theorem decodeBase64_chunk_count (s : string) :
  length (decodeBase64 s) = ((String.length s + 1023) / 1024)%nat.
Proof.
  unfold decodeBase64. rewrite decodeBase64_from_length, Nat.sub_0_r. reflexivity.
Qed.

Lemma pack_length (n : nat) (l : list Z) :
  (length l <= n)%nat -> (4 * length (pack l) <= 3 * length l)%nat.
Proof.
  revert l. induction n as [n IH] using lt_wf_ind. intros l Hl.
  destruct l as [|a [|b [|c [|d l]]]]; simpl; try lia.
  specialize (IH (length l) ltac:(simpl in Hl; lia) l (Nat.le_refl _)). lia.
Qed.

Lemma sextets_length (s : string) : (length (sextets s) <= String.length s)%nat.
Proof.
  induction s as [|c s IH]; simpl; [lia|].
  destruct (Ascii.eqb c "="); [simpl; lia|].
  destruct (unbase64 c); simpl; lia.
Qed.

Lemma take_length (n : nat) (s : string) : (String.length (take n s) <= n)%nat.
Proof.
  revert s. induction n as [|n IH]; intros [|c s]; simpl; try lia.
  specialize (IH s). lia.
Qed.

Lemma decodeBase64_from_sizes (s : string) (i : nat) :
  Forall (fun buf => (length buf <= 768)%nat) (decodeBase64_from s i).
Proof.
  funelim (decodeBase64_from s i); [|constructor].
  constructor; [|exact H].
  unfold Buffer_from_base64, slice.
  pose proof (pack_length _ _ (Nat.le_refl (length (sextets
                (take (i + chunkSize - i) (drop i base64String)))))) as Hp.
  pose proof (sextets_length (take (i + chunkSize - i) (drop i base64String))) as Hs.
  pose proof (take_length (i + chunkSize - i) (drop i base64String)) as Ht.
  replace (i + chunkSize - i)%nat with chunkSize in * by lia.
  assert (Hc : chunkSize = 1024%nat) by reflexivity.
  lia.
Qed.

(** X19: whatever the string, no Buffer yielded by [decodeBase64] holds
    more than 768 bytes, the content of 1024 base64 characters. *)
Theorem decodeBase64_chunk_size (s : string) :
  Forall (fun buf => (length buf <= 768)%nat) (decodeBase64 s).
Proof. apply decodeBase64_from_sizes. Qed.

End UtilsExtras.

(** ** Seen receipts *)

Section SeenExtras.
Import Channel Seen.

(** X20: [sendMessageSeenStatus] never rejects, whatever the chat lookup
    and the seen receipt do or throw, and what it does is fixed by their
    outcomes.  It asks for the chat exactly once, first.  If the lookup
    throws, it sends no receipt and logs what was thrown.  If the lookup
    returns undefined or null, it sends no receipt and logs the
    [TypeError] of reading [sendSeen] from it.  Otherwise it calls
    [sendSeen] once, on the chat the lookup returned, and logs what that
    call threw, if it threw.  Every log line carries the text
    ['Failed to send seen status'], and nothing else happens. *)
Theorem sendMessageSeenStatus_contains_failures (m : message) (tr : list event) :
  sendMessageSeenStatus m tr =
    (Ok tt,
     tr ++ GetChat ::
       match getChat m with
       | Throw error => [ LoggedError error "Failed to send seen status" ]
       | Ok JUndefined =>
           [ LoggedError
               (TypeError "Cannot read properties of undefined (reading 'sendSeen')")
               "Failed to send seen status" ]
       | Ok JNull =>
           [ LoggedError
               (TypeError "Cannot read properties of null (reading 'sendSeen')")
               "Failed to send seen status" ]
       | Ok chat =>
           SendSeen chat ::
           match sendSeen m chat with
           | Ok _ => []
           | Throw error => [ LoggedError error "Failed to send seen status" ]
           end
       end).
Proof.
  unfold sendMessageSeenStatus, Async.try_catch, Async.bind, await.
  destruct (getChat m) as [chat|error].
  - unfold chat_sendSeen, await, Async.ret, logger_error.
    destruct chat; cbn;
      try match goal with
          | |- context [sendSeen ?h ?c] => destruct (sendSeen h c) as [v|error]
          end; cbn; rewrite <- ?List.app_assoc; reflexivity.
  - unfold logger_error. now rewrite <- List.app_assoc.
Qed.

End SeenExtras.

(** ** Exposed page functions *)

Section PageExtras.
Import Channel Page.

(** X21: [exposeFunctionIfAbsent] leaves a page alone when [window]
    already holds a truthy value under the name; otherwise it exposes the
    function; and once it has succeeded, calling it again, with the same
    or another function, succeeds and changes nothing, so the first
    function stays bound. *)
Theorem exposeFunctionIfAbsent_once (name : string) (fn fn' : jsval) (p : page) :
  let first := exposeFunctionIfAbsent name fn p in
  ((exists v, window p !! name = Some v /\ truthy v = true) -> first = (Ok tt, p))
  /\ (fst first = Ok tt ->
      (exists v, window (snd first) !! name = Some v /\ truthy v = true)
      /\ exposeFunctionIfAbsent name fn' (snd first) = (Ok tt, snd first)).
Proof.
  cbv zeta. unfold exposeFunctionIfAbsent, Async.bind, evaluate_exists, Async.ret.
  split.
  - intros (v & Hv & Ht). now rewrite Hv, Ht.
  - destruct (window p !! name) as [v|] eqn:Hw.
    + destruct (truthy v) eqn:Ht.
      * intros _. cbn [snd]. rewrite Hw, Ht. split; [eauto | reflexivity].
      * unfold exposeFunction. destruct (bindings p !! name); [discriminate|].
        intros _. cbn [snd window]. rewrite lookup_insert_eq. cbn.
        split; [eauto | reflexivity].
    + unfold exposeFunction. destruct (bindings p !! name); [discriminate|].
      intros _. cbn [snd window]. rewrite lookup_insert_eq. cbn.
      split; [eauto | reflexivity].
Qed.

End PageExtras.

(** ** The patched page functions *)

Section PatchExtras.
Import Patch.

Lemma load_earlier_In (so : option messageSearch) (limit : Z)
    (earlier : list (list message)) (msgs : list message) (m : message) :
  In m (load_earlier so limit earlier msgs) ->
  In m msgs
  \/ (msgFilter so m = true /\ exists batch, In batch earlier /\ In m batch).
Proof.
  revert msgs. induction earlier as [|batch rest IH]; intros msgs; simpl.
  - destruct (_ <? _); auto.
  - destruct (_ <? _); [|auto].
    destruct batch as [|b batch]; [auto|].
    intros H. apply IH in H. destruct H as [H|(Hf & b' & Hb' & Hm)].
    + apply List.in_app_or in H. destruct H as [H|H]; [|auto].
      apply List.filter_In in H. destruct H as [Hin Hf].
      right. split; [exact Hf|]. exists (b :: batch). split; [now left | exact Hin].
    + right. split; [exact Hf|]. exists b'. split; [now right | exact Hm].
Qed.

Lemma in_skipn {A} (k : nat) (l : list A) (x : A) : In x (skipn k l) -> In x l.
Proof.
  intros H. rewrite <- (List.firstn_skipn k l). apply List.in_or_app. now right.
Qed.

(** X22: every message [fetchMessages] returns passes the filter (it is no
    notification, it has the requested [fromMe], it is not older than
    [since]) and comes from the store or from a loaded batch; and with a
    positive [limit] at most [limit] messages are returned.  This holds
    for any [sort] that permutes its array. *)
Theorem fetchMessages_filters_and_limits
    (array_sort : list message -> list message)
    (so : option messageSearch) (models : list message) (earlier : list (list message)) :
  (forall l, Permutation l (array_sort l)) ->
  let out := fetchMessages array_sort so models earlier in
  (forall m, In m out ->
     msgFilter so m = true
     /\ (In m models \/ exists batch, In batch earlier /\ In m batch))
  /\ (forall o limit, so = Some o -> search_limit o = Some limit -> 0 < limit ->
      Z.of_nat (length out) <= limit).
Proof.
  intros Hperm. cbv zeta.
  assert (Hload : forall limit m,
            In m (load_earlier so limit earlier (List.filter (msgFilter so) models)) ->
            msgFilter so m = true
            /\ (In m models \/ exists batch, In batch earlier /\ In m batch)).
  { intros limit m H. apply load_earlier_In in H. destruct H as [H|[Hf H]].
    - apply List.filter_In in H. tauto.
    - tauto. }
  assert (Hbase : forall m, In m (List.filter (msgFilter so) models) ->
            msgFilter so m = true
            /\ (In m models \/ exists batch, In batch earlier /\ In m batch)).
  { intros m H. apply List.filter_In in H. tauto. }
  unfold fetchMessages. split.
  - intros m. destruct so as [o|]; [|apply Hbase].
    destruct (search_limit o) as [limit|]; [|apply Hbase].
    destruct (0 <? limit); [|apply Hbase].
    destruct (limit <? _); [|apply Hload].
    intros H. apply in_skipn in H.
    apply (Permutation_in _ (Permutation_sym (Hperm _))) in H. now apply Hload in H.
  - intros o limit -> Hl Hpos. rewrite Hl.
    destruct (Z.ltb_spec 0 limit); [|lia].
    destruct (Z.ltb_spec limit
                (Z.of_nat (length (load_earlier (Some o) limit earlier
                                     (List.filter (msgFilter (Some o)) models))))); [|lia].
    rewrite List.length_skipn, <- (Permutation_length (Hperm _)). lia.
Qed.

(** Insertion sort by timestamp, one sort that permutes its array. *)
Fixpoint insert_by_t (m : message) (l : list message) : list message :=
  match l with
  | [] => [m]
  | x :: rest => if t m <=? t x then m :: l else x :: insert_by_t m rest
  end.

Fixpoint sort_by_t (l : list message) : list message :=
  match l with
  | [] => []
  | m :: rest => insert_by_t m (sort_by_t rest)
  end.

Lemma insert_by_t_perm (m : message) (l : list message) :
  Permutation (m :: l) (insert_by_t m l).
Proof.
  induction l as [|x l IH]; simpl; [reflexivity|].
  destruct (t m <=? t x); [reflexivity|].
  rewrite perm_swap. now constructor.
Qed.

Lemma sort_by_t_perm (l : list message) : Permutation l (sort_by_t l).
Proof.
  induction l as [|m l IH]; simpl; [reflexivity|].
  rewrite <- insert_by_t_perm. now constructor.
Qed.

Definition sample_message (id : string) (mine : bool) (time : Z) : message :=
  {| msg_serialized := id; isNotification := false; fromMe := mine; t := time |}.

Lemma fetchMessages_filters_and_limits_witness :
  Z.of_nat (length (fetchMessages sort_by_t
                      (Some {| search_fromMe := None; search_since := None;
                               search_limit := Some 2 |})
                      [ sample_message "c" true 30 ]
                      [ [ sample_message "a" false 10; sample_message "b" true 20 ] ]))
  <= 2.
Proof.
  refine (proj2 (fetchMessages_filters_and_limits sort_by_t
                   (Some {| search_fromMe := None; search_since := None;
                            search_limit := Some 2 |})
                   [ sample_message "c" true 30 ]
                   [ [ sample_message "a" false 10; sample_message "b" true 20 ] ]
                   sort_by_t_perm)
            {| search_fromMe := None; search_since := None; search_limit := Some 2 |}
            2 eq_refl eq_refl _).
  lia.
Defined.

(** The batches the loop can use: those before the first empty one. *)
Fixpoint usable (earlier : list (list message)) : list (list message) :=
  match earlier with
  | [] => []
  | [] :: _ => []
  | batch :: rest => batch :: usable rest
  end.

Lemma load_earlier_short (so : option messageSearch) (limit : Z)
    (earlier : list (list message)) (msgs : list message) :
  Z.of_nat (length (load_earlier so limit earlier msgs)) < limit ->
  load_earlier so limit earlier msgs
  = List.concat (map (List.filter (msgFilter so)) (rev (usable earlier))) ++ msgs.
Proof.
  revert msgs. induction earlier as [|batch rest IH]; intros msgs; simpl.
  - destruct (_ <? _); reflexivity.
  - destruct (Z.ltb_spec (Z.of_nat (length msgs)) limit) as [Hlt|Hge]; [|lia].
    destruct batch as [|b batch]; [reflexivity|].
    intros Hshort. rewrite IH by exact Hshort.
    cbn [rev]. rewrite List.map_app, List.concat_app. cbn [map List.concat].
    now rewrite List.app_nil_r, <- List.app_assoc.
Qed.

(** X23: [fetchMessages] gives up before reaching a positive [limit] only
    when the history is exhausted: if it returns fewer than [limit]
    messages, these are all the messages of the store and of every batch
    up to the first empty one that pass the filter, oldest batch first.
    This holds for any [sort] that permutes its array. *)
Theorem fetchMessages_short_means_exhausted
    (array_sort : list message -> list message)
    (o : messageSearch) (limit : Z) (models : list message)
    (earlier : list (list message)) :
  (forall l, Permutation l (array_sort l)) ->
  search_limit o = Some limit ->
  0 < limit ->
  Z.of_nat (length (fetchMessages array_sort (Some o) models earlier)) < limit ->
  fetchMessages array_sort (Some o) models earlier
  = List.concat (map (List.filter (msgFilter (Some o))) (rev (usable earlier)))
    ++ List.filter (msgFilter (Some o)) models.
Proof.
  intros Hperm Hl Hpos. unfold fetchMessages. rewrite Hl.
  destruct (Z.ltb_spec 0 limit); [|lia].
  destruct (Z.ltb_spec limit
              (Z.of_nat (length (load_earlier (Some o) limit earlier
                                   (List.filter (msgFilter (Some o)) models))))) as [Hgt|Hle].
  - rewrite List.length_skipn, <- (Permutation_length (Hperm _)). lia.
  - apply load_earlier_short.
Qed.

Lemma fetchMessages_short_means_exhausted_witness :
  fetchMessages sort_by_t
    (Some {| search_fromMe := Some true; search_since := None; search_limit := Some 5 |})
    [ sample_message "c" true 30 ]
    [ [ sample_message "a" false 10; sample_message "b" true 20 ]; [] ]
  = [ sample_message "b" true 20; sample_message "c" true 30 ].
Proof.
  exact (fetchMessages_short_means_exhausted sort_by_t
           {| search_fromMe := Some true; search_since := None; search_limit := Some 5 |}
           5 [ sample_message "c" true 30 ]
           [ [ sample_message "a" false 10; sample_message "b" true 20 ]; [] ]
           sort_by_t_perm eq_refl eq_refl eq_refl).
Defined.

Lemma sorted_split (l1 l2 : list message) :
  StronglySorted (fun a b => t a <= t b) (l1 ++ l2) ->
  forall x y, In x l1 -> In y l2 -> t x <= t y.
Proof.
  induction l1 as [|a l1 IH]; simpl; intros Hs x y Hx Hy; [destruct Hx|].
  apply StronglySorted_inv in Hs. destruct Hs as [Hs Hall].
  destruct Hx as [<-|Hx]; [|now apply IH].
  rewrite List.Forall_forall in Hall. apply Hall. apply List.in_or_app. now right.
Qed.

(** X24: when more than [limit] messages are at hand, [fetchMessages]
    keeps the [limit] latest ones, in ascending order of timestamp: what
    it drops is never newer than what it returns.  This holds for any
    [sort] that returns its array ordered by timestamp. *)
Theorem fetchMessages_keeps_latest
    (array_sort : list message -> list message)
    (o : messageSearch) (limit : Z) (models : list message)
    (earlier : list (list message)) :
  (forall l, Permutation l (array_sort l)) ->
  (forall l, StronglySorted (fun a b => t a <= t b) (array_sort l)) ->
  search_limit o = Some limit ->
  0 < limit ->
  let found := load_earlier (Some o) limit earlier
                            (List.filter (msgFilter (Some o)) models) in
  limit < Z.of_nat (length found) ->
  let out := fetchMessages array_sort (Some o) models earlier in
  Z.of_nat (length out) = limit
  /\ StronglySorted (fun a b => t a <= t b) out
  /\ exists dropped,
       Permutation found (dropped ++ out)
       /\ forall x y, In x dropped -> In y out -> t x <= t y.
Proof.
  intros Hperm Hsorted Hl Hpos found Hmore. cbv zeta.
  unfold fetchMessages. rewrite Hl. fold found.
  destruct (Z.ltb_spec 0 limit); [|lia].
  destruct (Z.ltb_spec limit (Z.of_nat (length found))); [|lia].
  set (k := (length found - Z.to_nat limit)%nat).
  pose proof (List.firstn_skipn k (array_sort found)) as Hsplit.
  split; [|split].
  - rewrite List.length_skipn, <- (Permutation_length (Hperm found)).
    unfold k. lia.
  - pose proof (Hsorted found) as Hs. rewrite <- Hsplit in Hs.
    clear -Hs. induction (firstn k (array_sort found)) as [|a l IH]; [exact Hs|].
    apply IH. simpl in Hs. now apply StronglySorted_inv in Hs.
  - exists (firstn k (array_sort found)). split.
    + rewrite Hsplit. apply Hperm.
    + apply sorted_split. rewrite Hsplit. apply Hsorted.
Qed.

Lemma insert_by_t_sorted (m : message) (l : list message) :
  StronglySorted (fun a b => t a <= t b) l ->
  StronglySorted (fun a b => t a <= t b) (insert_by_t m l).
Proof.
  induction 1 as [|x l Hs IH Hall]; simpl; [repeat constructor|].
  destruct (Z.leb_spec (t m) (t x)).
  - constructor; [now constructor|]. constructor; [assumption|].
    eapply List.Forall_impl; [|exact Hall]. simpl. intros. lia.
  - constructor; [exact IH|].
    apply (Permutation_Forall (insert_by_t_perm m l)).
    constructor; [lia | exact Hall].
Qed.

Lemma sort_by_t_sorted (l : list message) :
  StronglySorted (fun a b => t a <= t b) (sort_by_t l).
Proof.
  induction l as [|m l IH]; simpl; [constructor | now apply insert_by_t_sorted].
Qed.

Lemma fetchMessages_keeps_latest_witness :
  Z.of_nat (length (fetchMessages sort_by_t
                      (Some {| search_fromMe := None; search_since := None;
                               search_limit := Some 2 |})
                      [ sample_message "c" true 30 ]
                      [ [ sample_message "a" false 10; sample_message "b" true 20 ] ]))
  = 2.
Proof.
  refine (proj1 (fetchMessages_keeps_latest sort_by_t
            {| search_fromMe := None; search_since := None; search_limit := Some 2 |}
            2 [ sample_message "c" true 30 ]
            [ [ sample_message "a" false 10; sample_message "b" true 20 ] ]
            sort_by_t_perm sort_by_t_sorted eq_refl _ _)).
  - lia.
  - simpl. lia.
Defined.

Lemma filter_twice {A} (f g : A -> bool) (l : list A) :
  List.filter f (List.filter g l) = List.filter (fun x => g x && f x) l.
Proof.
  induction l as [|x l IH]; simpl; [reflexivity|].
  destruct (g x); simpl; [destruct (f x)|]; now rewrite IH.
Qed.

(** X25: the two criteria of the patched [getChats] act independently:
    asking for unread chats since a time gives the unread chats among the
    chats since that time, and the chats since that time among the unread
    chats; a chat without timestamp is never dropped for its age. *)
Theorem getChats_criteria_compose
    (unread : option bool) (since : option Z) (allChats : list chat) :
  let both := Some {| search_unread := unread; search_chats_since := since |} in
  let only_unread := Some {| search_unread := unread; search_chats_since := None |} in
  let only_since := Some {| search_unread := None; search_chats_since := since |} in
  getChats both allChats = getChats only_unread (getChats only_since allChats)
  /\ getChats both allChats = getChats only_since (getChats only_unread allChats)
  /\ (forall c, In c allChats -> chat_t c = None -> In c (getChats only_since allChats)).
Proof.
  cbv zeta. unfold getChats. rewrite !filter_twice. repeat split.
  - apply List.filter_ext. intros c. unfold chatFilter. cbn.
    destruct unread as [[]|], since, (chat_t c); cbn;
      repeat match goal with |- context [if ?b then _ else _] => destruct b end;
      reflexivity.
  - apply List.filter_ext. intros c. unfold chatFilter. cbn.
    destruct unread as [[]|], since, (chat_t c); cbn;
      repeat match goal with |- context [if ?b then _ else _] => destruct b end;
      reflexivity.
  - intros c Hin Ht. apply List.filter_In. split; [exact Hin|].
    unfold chatFilter. cbn. rewrite Ht. now destruct since.
Qed.

End PatchExtras.
